(** * Visionary AI image generator: retry, fan-out and comparison logic

    A shallow embedding of the TypeScript sources

      - services/geminiService.ts : [generateImageVariation],
        [compareImagesQuality]
      - App.tsx                   : [handleGenerate]
      - components/QualityComparator.tsx : [processFiles], [removeImage],
        [handleCompare] and the image grid
      - components/ImageUploader.tsx : [processFile]
      - components/ResultCard.tsx    : [handleDownload]

    Conventions.

      - The remote model endpoint is an oracle: a function from the number
        of calls already made by one invocation and the request to a reply.
      - Every effect of the service functions (provider call, console
        output, timer) is recorded in a chronological trace, so that "how
        many calls" and "which delays" are statements about a list.  A
        delay is the number handed to [setTimeout], in milliseconds.
      - [maxRetries] and the loop counter are integers.
      - The four concurrent invocations of a batch settle in an arbitrary
        order, given as a schedule; each continuation after an [await]
        runs to completion before the next one starts, as on the single
        JavaScript thread.
      - The SDK constructor [new GoogleGenAI(...)] is assumed to return.
      - [JSON.parse] belongs to the engine: the comparator is defined over
        any function from a text to a value or a SyntaxError, and a reader
        for a part of JSON instantiates it in the scenarios. *)

From Stdlib Require Import ZArith Lia Ascii Sorted.
From stdpp Require Import base list strings pretty.
From Equations Require Import Equations.

#[local] Set Warnings "-register-all".

Local Open Scope string_scope.
Local Open Scope list_scope.
Local Open Scope Z_scope.

(** ** Strings of the source *)

(** The line feed inside the template literals. *)
Definition nl : string := String (Ascii.ascii_of_nat 10) EmptyString.

(** The double quote around the interpolated instruction. *)
Definition dq : string := String (Ascii.ascii_of_nat 34) EmptyString.

(** JavaScript truthiness of a string: only the empty string is falsy. *)
Definition truthy (s : string) : bool :=
  match s with EmptyString => false | String _ _ => true end.

(** [s.startsWith(p)]. *)
Definition startsWith (s p : string) : bool := String.prefix p s.

(** The last character of a string, if any. *)
Fixpoint lastChar (s : string) : option Ascii.ascii :=
  match s with
  | EmptyString => None
  | String c rest =>
      match lastChar rest with
      | Some l => Some l
      | None => Some c
      end
  end.

(** [s.includes(c)] for a character. *)
Fixpoint contains (c : Ascii.ascii) (s : string) : bool :=
  match s with
  | EmptyString => false
  | String a rest => Ascii.eqb a c || contains c rest
  end.

(** The text [FileReader.readAsDataURL] produces for a file of the given
    type and base64 payload. *)
Definition dataUrl (type payload : string) : string :=
  "data:" +:+ type +:+ ";base64," +:+ payload.

(** ** The platform's JSON.parse

    [JSON.parse] is the engine's, not the repository's.  The model below is
    a recursive-descent reader for a part of JSON: objects, arrays, strings
    with the single-character escapes, integers, [true], [false], [null],
    and insignificant white space.  It has no value for a document with a
    fraction, an exponent or a [\u] escape, which the engine reads, and it
    keeps an integer beyond 2^53 exact where the engine rounds it.  It
    serves the concrete scenarios.  What is stated for every payload is
    stated for every engine (see [Gemini.compareImagesQualityWith]); the
    statements made with this reader use it on the documents of the
    scenarios and on the empty object, or hold whatever it returns. *)

Module JSON.

Inductive value :=
| Null
| Bool (b : bool)
| Num (n : Z)
| Str (s : string)
| Arr (items : list value)
| Obj (fields : list (string * value)).

(** Property read [o.key]; [None] is [undefined]. *)
Fixpoint assoc (key : string) (fields : list (string * value)) : option value :=
  match fields with
  | [] => None
  | (k, v) :: rest => if String.eqb k key then Some v else assoc key rest
  end.

Definition get (key : string) (v : value) : option value :=
  match v with Obj fields => assoc key fields | _ => None end.

(** Property write [o.key = v]: an existing key keeps its position. *)
Fixpoint set (key : string) (v : value) (fields : list (string * value))
  : list (string * value) :=
  match fields with
  | [] => [(key, v)]
  | (k, w) :: rest =>
      if String.eqb k key then (k, v) :: rest else (k, w) :: set key v rest
  end.

Definition is_ws (c : Ascii.ascii) : bool :=
  let n := Ascii.nat_of_ascii c in
  (n =? 32)%nat || (n =? 9)%nat || (n =? 10)%nat || (n =? 13)%nat.

Fixpoint skip_ws (s : string) : string :=
  match s with
  | String c rest => if is_ws c then skip_ws rest else s
  | EmptyString => s
  end.

Definition digit (c : Ascii.ascii) : option Z :=
  let n := Ascii.nat_of_ascii c in
  if (48 <=? n)%nat && (n <=? 57)%nat then Some (Z.of_nat n - 48) else None.

(** Digits after the first one. *)
Fixpoint read_digits (acc : Z) (s : string) : Z * string :=
  match s with
  | String c rest =>
      match digit c with
      | Some d => read_digits (10 * acc + d) rest
      | None => (acc, s)
      end
  | EmptyString => (acc, s)
  end.

(** [0] or a digit sequence without leading zero; a fraction or exponent
    mark right after it is outside the model. *)
Definition read_nat (s : string) : option (Z * string) :=
  match s with
  | String c rest =>
      match digit c with
      | Some 0 => Some (0, rest)
      | Some d => Some (read_digits d rest)
      | None => None
      end
  | EmptyString => None
  end.

Definition number_ends (s : string) : bool :=
  match s with
  | String c _ =>
      negb (Ascii.eqb c "." || Ascii.eqb c "e" || Ascii.eqb c "E")%char
  | EmptyString => true
  end.

Definition read_number (s : string) : option (Z * string) :=
  let signed :=
    match s with
    | String "-"%char rest => (-1, rest)
    | _ => (1, s)
    end in
  match read_nat (snd signed) with
  | Some (n, rest) =>
      if number_ends rest then Some (fst signed * n, rest) else None
  | None => None
  end.

Definition unescape (c : Ascii.ascii) : option Ascii.ascii :=
  let n := Ascii.nat_of_ascii c in
  if (n =? 34)%nat then Some c                          (* quote *)
  else if (n =? 92)%nat then Some c                     (* backslash *)
  else if (n =? 47)%nat then Some c                     (* slash *)
  else if (n =? 98)%nat then Some (Ascii.ascii_of_nat 8)    (* b *)
  else if (n =? 102)%nat then Some (Ascii.ascii_of_nat 12)  (* f *)
  else if (n =? 110)%nat then Some (Ascii.ascii_of_nat 10)  (* n *)
  else if (n =? 114)%nat then Some (Ascii.ascii_of_nat 13)  (* r *)
  else if (n =? 116)%nat then Some (Ascii.ascii_of_nat 9)   (* t *)
  else None.

(** The characters of a string literal after its opening quote. *)
Fixpoint read_string (s : string) : option (string * string) :=
  match s with
  | EmptyString => None
  | String c rest =>
      let n := Ascii.nat_of_ascii c in
      if (n =? 34)%nat then Some (EmptyString, rest)
      else if (n <? 32)%nat then None
      else if (n =? 92)%nat then
        match rest with
        | String e rest' =>
            match unescape e, read_string rest' with
            | Some c', Some (body, rest'') => Some (String c' body, rest'')
            | _, _ => None
            end
        | EmptyString => None
        end
      else
        match read_string rest with
        | Some (body, rest') => Some (String c body, rest')
        | None => None
        end
  end.

Definition read_literal (word : string) (v : value) (s : string)
  : option (value * string) :=
  if String.prefix word s
  then Some (v, String.substring (String.length word)
                  (String.length s - String.length word) s)
  else None.

(** [read_value] reads one value; [read_elements] the rest of an array
    after a first element; [read_members] the rest of an object after a
    first member.  [fuel] bounds the nesting and the element count. *)
Fixpoint read_value (fuel : nat) (s : string) : option (value * string) :=
  match fuel with
  | O => None
  | S fuel =>
      match skip_ws s with
      | String c rest =>
          let n := Ascii.nat_of_ascii c in
          if (n =? 123)%nat then                         (* { *)
            match skip_ws rest with
            | String c' rest' =>
                if (Ascii.nat_of_ascii c' =? 125)%nat    (* } *)
                then Some (Obj [], rest')
                else
                  match read_members fuel [] (String c' rest') with
                  | Some (fields, rest'') => Some (Obj fields, rest'')
                  | None => None
                  end
            | EmptyString => None
            end
          else if (n =? 91)%nat then                     (* [ *)
            match skip_ws rest with
            | String c' rest' =>
                if (Ascii.nat_of_ascii c' =? 93)%nat     (* ] *)
                then Some (Arr [], rest')
                else
                  match read_elements fuel [] (String c' rest') with
                  | Some (items, rest'') => Some (Arr items, rest'')
                  | None => None
                  end
            | EmptyString => None
            end
          else if (n =? 34)%nat then
            match read_string rest with
            | Some (str, rest') => Some (Str str, rest')
            | None => None
            end
          else if (n =? 116)%nat then read_literal "true" (Bool true) (String c rest)
          else if (n =? 102)%nat then read_literal "false" (Bool false) (String c rest)
          else if (n =? 110)%nat then read_literal "null" Null (String c rest)
          else
            match read_number (String c rest) with
            | Some (z, rest') => Some (Num z, rest')
            | None => None
            end
      | EmptyString => None
      end
  end

with read_elements (fuel : nat) (acc : list value) (s : string)
  : option (list value * string) :=
  match fuel with
  | O => None
  | S fuel =>
      match read_value fuel s with
      | Some (v, rest) =>
          match skip_ws rest with
          | String c rest' =>
              let n := Ascii.nat_of_ascii c in
              if (n =? 93)%nat then Some (acc ++ [v], rest')
              else if (n =? 44)%nat then read_elements fuel (acc ++ [v]) rest'
              else None
          | EmptyString => None
          end
      | None => None
      end
  end

with read_members (fuel : nat) (acc : list (string * value)) (s : string)
  : option (list (string * value) * string) :=
  match fuel with
  | O => None
  | S fuel =>
      match skip_ws s with
      | String q rest =>
          if (Ascii.nat_of_ascii q =? 34)%nat then
            match read_string rest with
            | Some (key, rest1) =>
                match skip_ws rest1 with
                | String colon rest2 =>
                    if (Ascii.nat_of_ascii colon =? 58)%nat then
                      match read_value fuel rest2 with
                      | Some (v, rest3) =>
                          match skip_ws rest3 with
                          | String c rest4 =>
                              let n := Ascii.nat_of_ascii c in
                              if (n =? 125)%nat then Some (set key v acc, rest4)
                              else if (n =? 44)%nat
                              then read_members fuel (set key v acc) rest4
                              else None
                          | EmptyString => None
                          end
                      | None => None
                      end
                    else None
                | EmptyString => None
                end
            | None => None
            end
          else None
      | EmptyString => None
      end
  end.

(** [JSON.parse(text)]: the value, or [None] for the SyntaxError thrown. *)
Definition parse (text : string) : option value :=
  match read_value (S (String.length text)) text with
  | Some (v, rest) =>
      match skip_ws rest with
      | EmptyString => Some v
      | String _ _ => None
      end
  | None => None
  end.

End JSON.

Module Gemini.

(** ** Wire data of the provider (the parts of @google/genai the code reads) *)

Record InlineData := mkInlineData {
  mimeType : option string;
  data : option string
}.

Record Part := mkPart {
  text : option string;
  inlineData : option InlineData
}.

Record Content := mkContent { parts : option (list Part) }.

Record Candidate := mkCandidate { content : option Content }.

Record Response := mkResponse {
  candidates : option (list Candidate);
  response_text : option string
}.

(** The [responseSchema] literal of a request. *)
Inductive Schema :=
| INTEGER (description : option string)
| STRING (description : option string)
| ARRAY (items : Schema)
| OBJECT (properties : list (string * Schema)).

Record Request := mkRequest {
  model : string;
  contents : list Part;
  imageConfig : option string;       (* config.imageConfig.aspectRatio *)
  responseMimeType : option string;  (* config.responseMimeType *)
  responseSchema : option Schema     (* config.responseSchema *)
}.

(** What [await ai.models.generateContent(...)] does: reject or resolve. *)
Inductive Reply :=
| Raises (message : string)
| Responds (r : Response).

(** The provider: its reply to the request it receives as call number [n]
    (counting from 0) of one invocation. *)
Definition Provider := nat -> Request -> Reply.

(** ** Effects *)

Inductive Event :=
| Call (req : Request)
| Warn (attempt maxRetries : Z) (message : string)
| Wait (ms : Z)
| LogError (lastError : option string).

Definition is_call (e : Event) : bool :=
  match e with Call _ => true | _ => false end.

Definition ncalls (tr : list Event) : nat := length (filter is_call tr).

(** The delays handed to [wait], in order. *)
Definition waits (tr : list Event) : list Z :=
  omap (fun e => match e with Wait ms => Some ms | _ => None end) tr.

(** ** Prompt construction (geminiService.ts:18-37) *)

Definition basePrompt (prompt aspectRatio : string) : string :=
  "Analyze the attached reference image carefully for style, composition, and key features. " +:+ nl +:+
  "              " +:+ nl +:+
  "  Task: Generate a high-fidelity, photorealistic new image based on this analysis and the following instruction: "
    +:+ dq +:+ prompt +:+ dq +:+ "." +:+ nl +:+
  "  " +:+ nl +:+
  "  Requirements:" +:+ nl +:+
  "  - Output Resolution: 8K equivalent detail." +:+ nl +:+
  "  - Quality: Masterpiece, highly detailed, sharp focus." +:+ nl +:+
  "  - Aspect Ratio: " +:+ aspectRatio +:+ "." +:+ nl +:+
  "  - Do not simply describe the image; generate the visual result.".

Definition enhancementBlock : string :=
  nl +:+
  "    " +:+ nl +:+
  "    CRITICAL ENHANCEMENT INSTRUCTIONS:" +:+ nl +:+
  "    - MODE: ULTRA-REALISM & TEXTURE UPSCALING." +:+ nl +:+
  "    - Lighting: Apply volumetric lighting, ray-tracing style shadows, and professional color grading (HDR)." +:+ nl +:+
  "    - Details: Enhance micro-textures (skin pores, fabric threads, material imperfections)." +:+ nl +:+
  "    - Clarity: Eliminate all compression artifacts, blur, or noise. Denoise and sharpen." +:+ nl +:+
  "    - Aesthetics: Cinematic composition, award-winning photography style.".

Definition systemPrompt (prompt aspectRatio : string) (enhanceQuality : bool) : string :=
  let systemPrompt := basePrompt prompt aspectRatio in
  if enhanceQuality then systemPrompt +:+ enhancementBlock else systemPrompt.

(** ** One attempt (geminiService.ts:42-73) *)

(** [part.inlineData && part.inlineData.data]: the payload when truthy. *)
Definition imageData (p : Part) : option string :=
  match inlineData p with
  | Some i =>
      match data i with
      | Some d => if truthy d then Some d else None
      | None => None
      end
  | None => None
  end.

(** The [for (const part of ...)] scan: the first part with a payload. *)
Fixpoint firstImage (ps : list Part) : option string :=
  match ps with
  | [] => None
  | p :: ps' =>
      match imageData p with
      | Some d => Some d
      | None => firstImage ps'
      end
  end.

Definition noImageError : string :=
  "API returned response but no image data found.".

(** Reading a property of [undefined] throws a TypeError; the text is the
    engine's and only ends up in the console. *)
Definition typeError (prop : string) : string :=
  "Cannot read properties of undefined (reading '" +:+ prop +:+ "')".

(** The body of the [try] after the call resolved: the returned data URL,
    or the message of the error thrown. *)
Definition inspectResponse (r : Response) : string + string :=
  match candidates r with
  | None => inl noImageError
  | Some [] => inl (typeError "content")
  | Some (c :: _) =>
      match content c with
      | None => inl (typeError "parts")
      | Some ct =>
          match parts ct with
          | None => inl noImageError
          | Some ps =>
              match firstImage ps with
              | Some d => inr ("data:image/png;base64," +:+ d)
              | None => inl noImageError
              end
          end
      end
  end.

Definition tryAttempt (rep : Reply) : string + string :=
  match rep with
  | Raises m => inl m
  | Responds r => inspectResponse r
  end.

(** The content parts the scan can reach: those of the first candidate. *)
Definition contentParts (r : Response) : list Part :=
  match candidates r with
  | Some (c :: _) =>
      match content c with
      | Some ct => default [] (parts ct)
      | None => []
      end
  | _ => []
  end.

(** A part carries inline binary image data. *)
Definition hasImage (p : Part) : Prop := is_Some (imageData p).

(** An attempt fails: the call raises, or no reachable part has a payload. *)
Definition attemptFails (rep : Reply) : Prop :=
  match rep with
  | Raises _ => True
  | Responds r => Forall (fun p => imageData p = None) (contentParts r)
  end.

(** The message of the error caught after a failing attempt. *)
Definition failureMessage (rep : Reply) : string :=
  match tryAttempt rep with inl m => m | inr _ => "" end.

(** ** The retry loop (geminiService.ts:39-89) *)

Section Generator.

Variable provider : Provider.
Variables referenceImageBase64 mimeType_ prompt aspectRatio : string.
Variable enhanceQuality : bool.
Variable maxRetries : Z.

Definition generationRequest : Request :=
  {| model := "gemini-2.5-flash-image";
     contents :=
       [ {| text := Some (systemPrompt prompt aspectRatio enhanceQuality);
            inlineData := None |};
         {| text := None;
            inlineData := Some {| mimeType := Some mimeType_;
                                  data := Some referenceImageBase64 |} |} ];
     imageConfig := Some aspectRatio;
     responseMimeType := None;
     responseSchema := None |}.

(** [1000 * Math.pow(2, attempt - 1)]. *)
Definition backoff (attempt : Z) : Z := 1000 * 2 ^ (attempt - 1).

(** The [catch] block: warn, remember the error, wait unless last. *)
Definition onFailure (attempt : Z) (message : string) (tr : list Event)
  : list Event :=
  let tr := tr ++ [Warn attempt maxRetries message] in
  if attempt <? maxRetries then tr ++ [Wait (backoff attempt)] else tr.

Equations? retryLoop (attempt : Z) (lastError : option string)
  (tr : list Event) : option string * list Event
  by wf (Z.to_nat (maxRetries + 1 - attempt)) lt :=
retryLoop attempt lastError tr with Z_le_dec attempt maxRetries := {
  | right _ => (None, tr ++ [LogError lastError])
  | left _ with tryAttempt (provider (ncalls tr) generationRequest) := {
      | inr url => (Some url, tr ++ [Call generationRequest])
      | inl message =>
          retryLoop (attempt + 1) (Some message)
            (onFailure attempt message (tr ++ [Call generationRequest])) } }.
Proof. lia. Qed.

Definition generateImageVariation : option string * list Event :=
  retryLoop 1 None [].

(** The error caught in attempt [i], the provider failing there. *)
Definition attemptMessage (i : Z) : string :=
  failureMessage (provider (Z.to_nat (i - 1)) generationRequest).

(** What a failing attempt [i] that is not the last leaves in the trace:
    the call, the warning and the delay. *)
Definition failedRound (i : Z) : list Event :=
  [Call generationRequest; Warn i maxRetries (attemptMessage i);
   Wait (backoff i)].

(** What the last attempt leaves when it fails too: the call and the
    warning, then the final console error, with no delay in between. *)
Definition lastRound : list Event :=
  [Call generationRequest;
   Warn maxRetries maxRetries (attemptMessage maxRetries);
   LogError (Some (attemptMessage maxRetries))].

(** The trace of a run of [maxRetries] attempts that all fail. *)
Definition failedRun : list Event :=
  flat_map failedRound (seqZ 1 (maxRetries - 1)) ++ lastRound.

End Generator.

(** ** Quality comparison (geminiService.ts:92-148) *)

(** An element of the [images] argument. *)
Record ImageInput := mkImageInput {
  image_data : string;
  image_mimeType : string
}.

(** How an async function settles. *)
Inductive Settled (A : Type) :=
| Fulfilled (a : A)
| Rejected (message : string).
Arguments Fulfilled {A} a.
Arguments Rejected {A} message.

Definition comparePrompt : string :=
  "You are a world-class photography judge and technical image analyst. " +:+ nl +:+
  "  " +:+ nl +:+
  "  Task: Analyze the provided images. Compare them based on:" +:+ nl +:+
  "  1. Technical Quality: Sharpness, noise levels, exposure balance, dynamic range, and resolution perception." +:+ nl +:+
  "  2. Aesthetic Quality: Composition, color harmony, lighting, and visual impact." +:+ nl +:+
  "  " +:+ nl +:+
  "  Output:" +:+ nl +:+
  "  - Assign a score (0-100) to each image." +:+ nl +:+
  "  - Provide a concise critique for each (max 15 words)." +:+ nl +:+
  "  - Identify the single BEST image index." +:+ nl +:+
  "  - Provide a reason why it won.".

Definition compareSchema : Schema :=
  OBJECT
    [ ("bestImageIndex",
        INTEGER (Some "Index of the highest quality image (0-based)"));
      ("winnerReason", STRING (Some "Why this image is the best"));
      ("analyses",
        ARRAY (OBJECT
          [ ("index", INTEGER None);
            ("score", INTEGER (Some "Quality score from 0-100"));
            ("critique", STRING (Some "Short critique of the image")) ])) ].

Definition imageParts (images : list ImageInput) : list Part :=
  map (fun img =>
         {| text := None;
            inlineData := Some {| mimeType := Some (image_mimeType img);
                                  data := Some (image_data img) |} |})
      images.

Definition comparisonRequest (images : list ImageInput) : Request :=
  {| model := "gemini-2.5-flash";
     contents :=
       {| text := Some comparePrompt; inlineData := None |}
         :: imageParts images;
     imageConfig := None;
     responseMimeType := Some "application/json";
     responseSchema := Some compareSchema |}.

(** [response.text || "{}"]. *)
Definition textOrEmptyObject (r : Response) : string :=
  match response_text r with
  | Some t => if truthy t then t else "{}"
  | None => "{}"
  end.

(** [compareImagesQuality] (geminiService.ts:92-148) over the engine's
    [JSON.parse], a function that returns a value of the engine's type [V]
    or throws a SyntaxError with the engine's message.  One call, no retry;
    a rejected call and a SyntaxError both reject the returned promise. *)
Section Engine.

Context {V : Type} (JSON_parse : string -> Settled V).

Definition compareImagesQualityWith (provider : Provider)
  (images : list ImageInput) : Settled V * list Event :=
  let req := comparisonRequest images in
  let tr := [Call req] in
  match provider O req with
  | Raises m => (Rejected m, tr)
  | Responds response => (JSON_parse (textOrEmptyObject response), tr)
  end.

End Engine.

(** The reader of [Module JSON] as an engine.  Where it has no value the
    message is a stand-in for the engine's; the statements about every
    engine are made of [compareImagesQualityWith]. *)
Definition parseModel (text : string) : Settled JSON.value :=
  match JSON.parse text with
  | Some v => Fulfilled v
  | None => Rejected "Unexpected token in JSON"
  end.

(** [compareImagesQuality] with the reader of [Module JSON]. *)
Definition compareImagesQuality (provider : Provider)
  (images : list ImageInput) : Settled JSON.value * list Event :=
  compareImagesQualityWith parseModel provider images.

(** The ranking a result carries for [n] images: [analyses] has exactly [n]
    entries whose [index] values are distinct integers of [0, n-1], and
    [bestImageIndex] is an integer of [0, n-1]. *)
Definition analysisIndex (a : JSON.value) : option Z :=
  match JSON.get "index" a with
  | Some (JSON.Num i) => Some i
  | _ => None
  end.

Definition wellRanked (n : nat) (v : JSON.value) : Prop :=
  match JSON.get "analyses" v, JSON.get "bestImageIndex" v with
  | Some (JSON.Arr items), Some (JSON.Num best) =>
      length items = n
      /\ Forall (fun a => exists i, analysisIndex a = Some i
                                  /\ 0 <= i < Z.of_nat n) items
      /\ NoDup (map analysisIndex items)
      /\ 0 <= best < Z.of_nat n
  | _, _ => False
  end.

(** The payload [response.text] is empty or missing. *)
Definition emptyPayload (r : Response) : Prop :=
  response_text r = None \/ response_text r = Some "".

(** The payload of the response has no [analyses] field. *)
Definition omitsAnalyses (r : Response) : Prop :=
  match response_text r with
  | Some t =>
      match JSON.parse t with
      | Some v => JSON.get "analyses" v = None
      | None => True
      end
  | None => True
  end.

(** The sum of the delays of a trace, in milliseconds. *)
Definition totalWait (tr : list Event) : Z := foldr Z.add 0 (waits tr).

End Gemini.

(** ** The batch of four variations (App.tsx) *)

Module App.

Record GeneratedImage := mkGeneratedImage {
  id : string;
  url : string;
  prompt : string;
  aspectRatio : string;
  createdAt : Z;
  enhanced : bool
}.

Record GenerationState := mkGenerationState {
  isGenerating : bool;
  progress : Z;
  error : option string
}.

Record RefImage := mkRefImage {
  data : string;
  mime : string;
  preview : string
}.

(** The component's [useState] cells the generator path touches. *)
Record State := mkState {
  refImage : option RefImage;
  promptText : string;
  ratio : string;
  enhanceQuality : bool;
  results : list GeneratedImage;
  genState : GenerationState
}.

Definition initialState : State :=
  {| refImage := None; promptText := ""; ratio := "1:1";
     enhanceQuality := false; results := [];
     genState := {| isGenerating := false; progress := 0; error := None |} |}.

Definition setRefImage (r : option RefImage) (st : State) : State :=
  {| refImage := r; promptText := promptText st; ratio := ratio st;
     enhanceQuality := enhanceQuality st; results := results st;
     genState := genState st |}.

Definition setResults (rs : list GeneratedImage) (st : State) : State :=
  {| refImage := refImage st; promptText := promptText st; ratio := ratio st;
     enhanceQuality := enhanceQuality st; results := rs;
     genState := genState st |}.

(** [setGenState] with an updater; a plain value is a constant updater. *)
Definition setGenState (f : GenerationState -> GenerationState) (st : State)
  : State :=
  {| refImage := refImage st; promptText := promptText st; ratio := ratio st;
     enhanceQuality := enhanceQuality st; results := results st;
     genState := f (genState st) |}.

Definition handleImageSelect (base64 mimeType : string) (st : State) : State :=
  let preview := "data:" +:+ mimeType +:+ ";base64," +:+ base64 in
  setRefImage (Some {| data := base64; mime := mimeType; preview := preview |}) st.

(** [prev => ({ ...prev, progress: prev.progress + 1 })]. *)
Definition incrementProgress (prev : GenerationState) : GenerationState :=
  {| isGenerating := isGenerating prev; progress := progress prev + 1;
     error := error prev |}.

Definition batchError : string :=
  "Unable to generate images after multiple auto-fix attempts. This might be due to safety filters or high server load. Please modify your prompt and try again.".

(** A run in progress: the current state, every value [setGenState]
    stored (oldest first), and the slots that [Promise.all] fills, in
    launch order. *)
Record Run := mkRun {
  current : State;
  history : list GenerationState;
  generatedResults : list (option GeneratedImage)
}.

Definition doSetResults (rs : list GeneratedImage) (r : Run) : Run :=
  {| current := setResults rs (current r);
     history := history r;
     generatedResults := generatedResults r |}.

Definition doSetGenState (f : GenerationState -> GenerationState) (r : Run)
  : Run :=
  {| current := setGenState f (current r);
     history := history r ++ [f (genState (current r))];
     generatedResults := generatedResults r |}.

(** The promise of invocation [index] resolves with [g]. *)
Definition resolve (index : nat) (g : option GeneratedImage) (r : Run) : Run :=
  {| current := current r;
     history := history r;
     generatedResults := <[index := g]> (generatedResults r) |}.

(** One invocation settling: which one, and the two [Date.now()] readings
    taken if it produced an image. *)
Record Completion := mkCompletion {
  who : nat;
  idClock : Z;
  createdClock : Z
}.

Section Batch.

(** The provider as each of the invocations sees it. *)
Variable providers : nat -> Gemini.Provider.

(** The values the closure of [handleGenerate] captured. *)
Variable ref : RefImage.
Variable st0 : State.

(** [await generateImageVariation(...)] for invocation [index], with the
    default [maxRetries = 3]. *)
Definition variation (index : nat) : option string :=
  fst (Gemini.generateImageVariation (providers index)
         (data ref) (mime ref) (promptText st0) (ratio st0)
         (enhanceQuality st0) 3).

(** The rest of the mapped async function after its [await]
    (App.tsx:52-63).  The inner [catch] is not modelled:
    [generateImageVariation] has no throwing path here. *)
Definition afterVariation (c : Completion) (r : Run) : Run :=
  match variation (who c) with
  | Some imgData =>
      if truthy imgData then
        resolve (who c)
          (Some {| id := pretty (idClock c) +:+ pretty (who c);
                   url := imgData;
                   prompt := promptText st0;
                   aspectRatio := ratio st0;
                   createdAt := createdClock c;
                   enhanced := enhanceQuality st0 |})
          (doSetGenState incrementProgress r)
      else resolve (who c) None r
  | None => resolve (who c) None r
  end.

(** [generatedResults.filter(r => r !== null)]. *)
Definition validResults (r : Run) : list GeneratedImage :=
  omap (fun g => g) (generatedResults r).

(** After [await Promise.all(...)] (App.tsx:71-85). *)
Definition afterAll (r : Run) : Run :=
  if (length (validResults r) =? 0)%nat then
    doSetGenState (fun _ =>
      {| isGenerating := false; progress := 0;
         error := Some (if truthy batchError then batchError
                        else "An unexpected error occurred.") |}) r
  else
    doSetGenState (fun _ =>
      {| isGenerating := false; progress := 4; error := None |})
      (doSetResults (validResults r) r).

(** Up to the launch of the four invocations (App.tsx:36-43). *)
Definition launch : Run :=
  doSetGenState (fun _ =>
    {| isGenerating := true; progress := 0; error := None |})
    (doSetResults []
       {| current := st0; history := [];
          generatedResults := replicate 4 None |}).

Definition settleAll (sched : list Completion) (r : Run) : Run :=
  foldl (fun r c => afterVariation c r) r sched.

(** The image record invocation [who c] hands to [Promise.all], if any. *)
Definition produced (c : Completion) : option GeneratedImage :=
  match variation (who c) with
  | Some imgData =>
      Some {| id := pretty (idClock c) +:+ pretty (who c);
              url := imgData;
              prompt := promptText st0;
              aspectRatio := ratio st0;
              createdAt := createdClock c;
              enhanced := enhanceQuality st0 |}
  | None => None
  end.

(** How many invocations produced an image. *)
Definition successes : nat :=
  length (filter (fun i => is_Some (variation i)) (seq 0 4)).

(** How many completions of a schedule produced an image. *)
Definition wins (sched : list Completion) : nat :=
  length (filter (fun c => is_Some (produced c)) sched).

(** The slots of [Promise.all] after the completions of a schedule. *)
Definition fill (l : list (option GeneratedImage)) (sched : list Completion)
  : list (option GeneratedImage) :=
  foldl (fun l c => <[who c := produced c]> l) l sched.

End Batch.

(** [handleGenerate], the invocations settling in the order [sched]. *)
Definition handleGenerate (providers : nat -> Gemini.Provider)
  (sched : list Completion) (st : State) : Run :=
  match refImage st with
  | Some ref =>
      if truthy (promptText st)
      then afterAll (settleAll providers ref st sched (launch st))
      else {| current := st; history := []; generatedResults := [] |}
  | None => {| current := st; history := []; generatedResults := [] |}
  end.

(** A schedule of a complete batch: each of the invocations 0..3 settles
    exactly once, in any order. *)
Definition completeSchedule (sched : list Completion) : Prop :=
  map who sched ≡ₚ seq 0 4.

(** The completion of invocation [index] in a schedule. *)
Definition completionOf (sched : list Completion) (index : nat)
  : option Completion :=
  List.find (fun c => (who c =? index)%nat) sched.

(** The image, if any, that invocation [index] contributes. *)
Definition slot (providers : nat -> Gemini.Provider) (ref : RefImage)
  (st0 : State) (sched : list Completion) (index : nat)
  : option GeneratedImage :=
  completionOf sched index ≫= produced providers ref st0.

(** The progress values the component went through, oldest first. *)
Definition progressSeen (r : Run) : list Z := map progress (history r).


(** The effects of invocation [index] of a batch: the trace of its
    [generateImageVariation] call. *)
Definition variationTrace (providers : nat -> Gemini.Provider)
  (ref : RefImage) (st0 : State) (index : nat) : list Gemini.Event :=
  snd (Gemini.generateImageVariation (providers index)
         (data ref) (mime ref) (promptText st0) (ratio st0)
         (enhanceQuality st0) 3).

(** The provider calls of a whole batch. *)
Definition batchCalls (providers : nat -> Gemini.Provider)
  (ref : RefImage) (st0 : State) : nat :=
  foldr Nat.add O
    (map (fun index => Gemini.ncalls (variationTrace providers ref st0 index))
         (seq 0 4)).
End App.

(** ** The comparator's image list (components/QualityComparator.tsx) *)

Module QualityComparator.

(** [s.split(sep)] for a one-character separator. *)
Fixpoint split (sep : Ascii.ascii) (s : string) : list string :=
  match s with
  | EmptyString => [EmptyString]
  | String c rest =>
      if Ascii.eqb c sep then EmptyString :: split sep rest
      else
        match split sep rest with
        | piece :: pieces => String c piece :: pieces
        | [] => [String c EmptyString]
        end
  end.

(** A picked file as the code sees it: its [type], and what
    [reader.result] holds when [onloadend] fires ([None] after a failed
    read). *)
Record File := mkFile {
  type : string;
  readerResult : option string
}.

(** An element of [images]; [data] is [undefined] when the data URL has no
    comma. *)
Record Image := mkImage {
  data : option string;
  mime : string;
  preview : string
}.

Record State := mkState {
  images : list Image;
  isAnalyzing : bool;
  result : option JSON.value;
  error : option string
}.

Definition initialState : State :=
  {| images := []; isAnalyzing := false; result := None; error := None |}.

(** The variables of one [processFiles] call shared by its callbacks. *)
Record Closure := mkClosure {
  newImages : list Image;
  processedCount : nat
}.

(** The three setters of QualityComparator.tsx:39-41. *)
Definition commit (newImages : list Image) (st : State) : State :=
  {| images := take 4 (images st ++ newImages);
     isAnalyzing := isAnalyzing st;
     result := None;
     error := None |}.

(** The object pushed onto [newImages] (QualityComparator.tsx:29-35). *)
Definition makeImage (file : File) (base64String : string) : Image :=
  let base64Data := split "," base64String !! 1%nat in
  {| data := base64Data; mime := type file; preview := base64String |}.

(** [reader.onloadend] for [file], in a call that received [nfiles] files.
    With a null [reader.result] the [split] throws and the callback ends
    there. *)
Definition onloadend (nfiles : nat) (file : File) (cs : Closure * State)
  : Closure * State :=
  let (cl, st) := cs in
  match readerResult file with
  | None => (cl, st)
  | Some base64String =>
      let cl' :=
        {| newImages := newImages cl ++ [makeImage file base64String];
           processedCount := S (processedCount cl) |} in
      if (processedCount cl' =? nfiles)%nat
      then (cl', commit (newImages cl') st)
      else (cl', st)
  end.

(** The files [forEach] starts a reader for: a file whose type fails
    [file.type.startsWith('image/')] returns from the callback at
    QualityComparator.tsx:25 and gets no reader. *)
Definition accepted (files : list File) : list File :=
  filter (fun file => startsWith (type file) "image/") files.

(** [processFiles(files)].  [loaded] lists files in the order their load
    events arrive; a file that failed the test of line 25 has no reader and
    so no [onloadend], whatever its place in [loaded].  The comparison of
    line 37 is with [files.length], the number of files received. *)
Definition processFiles (files loaded : list File) (st : State) : State :=
  snd (foldl (fun cs file => onloadend (length files) file cs)
             ({| newImages := []; processedCount := O |}, st)
             (accepted loaded)).

(** [prev.filter((_, i) => i !== index)], scanning from position [i]. *)
Fixpoint filterIndex {A} (keep : nat -> bool) (i : nat) (l : list A) : list A :=
  match l with
  | [] => []
  | x :: rest =>
      if keep i then x :: filterIndex keep (S i) rest
      else filterIndex keep (S i) rest
  end.

Definition removeImage (index : nat) (st : State) : State :=
  {| images := filterIndex (fun i => negb (i =? index)%nat) O (images st);
     isAnalyzing := isAnalyzing st;
     result := None;
     error := error st |}.

(** What the user does to the image list. *)
Inductive Action :=
| Upload (files loaded : list File)
| Remove (index : nat).

Definition step (st : State) (a : Action) : State :=
  match a with
  | Upload files loaded => processFiles files loaded st
  | Remove index => removeImage index st
  end.

Definition run (actions : list Action) (st : State) : State :=
  foldl step st actions.


(** *** Comparing (QualityComparator.tsx:53-71) *)

Definition setImages (l : list Image) (st : State) : State :=
  {| images := l; isAnalyzing := isAnalyzing st; result := result st;
     error := error st |}.

Definition setIsAnalyzing (b : bool) (st : State) : State :=
  {| images := images st; isAnalyzing := b; result := result st;
     error := error st |}.

Definition setResult (r : option JSON.value) (st : State) : State :=
  {| images := images st; isAnalyzing := isAnalyzing st; result := r;
     error := error st |}.

Definition setError (e : option string) (st : State) : State :=
  {| images := images st; isAnalyzing := isAnalyzing st; result := result st;
     error := e |}.

Definition tooFewImages : string :=
  "Please upload at least 2 images to compare.".

(** [{ data: img.data, mimeType: img.mime }], for an image that has its
    data. *)
Definition toInput (img : Image) : option Gemini.ImageInput :=
  match data img with
  | Some d => Some {| Gemini.image_data := d; Gemini.image_mimeType := mime img |}
  | None => None
  end.

(** [images.map(...)]; [None] when some image has no data. *)
Fixpoint toInputs (l : list Image) : option (list Gemini.ImageInput) :=
  match l with
  | [] => Some []
  | img :: rest =>
      match toInput img, toInputs rest with
      | Some i, Some inputs => Some (i :: inputs)
      | _, _ => None
      end
  end.

(** The state [result] holds after [setResult(analysis)]: a parsed [null]
    is the empty state. *)
Definition storeResult (analysis : JSON.value) : option JSON.value :=
  match analysis with
  | JSON.Null => None
  | v => Some v
  end.

(** A call of [handleCompare]: the state while the request is pending (if
    one was sent), the state it leaves, and the provider calls made. *)
Record CompareRun := mkCompareRun {
  pending : option State;
  final : State;
  calls : list Gemini.Event
}.

(** [handleCompare].  [Gemini.ImageInput] is the declared parameter type
    of [compareImagesQuality], with [data] a string.  An image whose
    [data] is [undefined] (a data URL without a comma, which
    [readAsDataURL] does not produce) would put [undefined] into the
    request: the code still sends it, the model has no request for it and
    is [None] there.  The statements about [handleCompare] say when they
    need every image to carry its payload. *)
Definition handleCompare (provider : Gemini.Provider) (st : State)
  : option CompareRun :=
  if (length (images st) <? 2)%nat then
    Some {| pending := None;
            final := setError (Some tooFewImages) st;
            calls := [] |}
  else
    match toInputs (images st) with
    | None => None
    | Some inputs =>
        let st1 := setResult None (setError None (setIsAnalyzing true st)) in
        let settled := Gemini.compareImagesQuality provider inputs in
        let st2 :=
          match fst settled with
          | Gemini.Fulfilled analysis => setResult (storeResult analysis) st1
          | Gemini.Rejected message =>
              setError (Some (if truthy message then message
                              else "Failed to analyze images.")) st1
          end in
        Some {| pending := Some st1;
                final := setIsAnalyzing false st2;
                calls := snd settled |}
    end.

(** The "Start New Comparison" button. *)
Definition startNew (st : State) : State := setImages [] (setResult None st).

(** *** The image grid (QualityComparator.tsx:105-107) *)

(** What the render computes at the head of each card
    (QualityComparator.tsx:106-107), before the card's JSX: [Crashed] when
    a lookup throws a TypeError, which ends the render; [Shown] when the
    lookups returned.  The JSX that follows (lines 109-162, with the
    children [analysis.score] and [analysis.critique]) is left to React
    and is not part of the model: [Shown] says nothing about it. *)
Inductive Rendered (A : Type) :=
| Shown (a : A)
| Crashed.
Arguments Shown {A} a.
Arguments Crashed {A}.

(** [v === index] for a property value [v] and an array position. *)
Definition strictEquals (v : option JSON.value) (index : nat) : bool :=
  match v with
  | Some (JSON.Num n) => n =? Z.of_nat index
  | _ => false
  end.

(** [result?.bestImageIndex === index]. *)
Definition isWinner (result : option JSON.value) (index : nat) : bool :=
  match result with
  | Some r => strictEquals (JSON.get "bestImageIndex" r) index
  | None => false
  end.

(** [items.find(a => a.index === index)]: reading [index] of a [null]
    element throws. *)
Fixpoint findAnalysis (index : nat) (items : list JSON.value)
  : Rendered (option JSON.value) :=
  match items with
  | [] => Shown None
  | a :: rest =>
      match a with
      | JSON.Null => Crashed
      | _ =>
          if strictEquals (JSON.get "index" a) index then Shown (Some a)
          else findAnalysis index rest
      end
  end.

(** [result?.analyses.find(...)]: with a result that has no [analyses]
    array, calling [find] throws. *)
Definition analysisFor (result : option JSON.value) (index : nat)
  : Rendered (option JSON.value) :=
  match result with
  | None => Shown None
  | Some JSON.Null => Shown None
  | Some r =>
      match JSON.get "analyses" r with
      | Some (JSON.Arr items) => findAnalysis index items
      | _ => Crashed
      end
  end.

(** The two constants of one card: [isWinner] and [analysis]. *)
Definition card (result : option JSON.value) (index : nat)
  : Rendered (bool * option JSON.value) :=
  match analysisFor result index with
  | Shown a => Shown (isWinner result index, a)
  | Crashed => Crashed
  end.

(** [images.map((img, index) => ...)] over the positions from [index]. *)
Fixpoint cards (result : option JSON.value) (index count : nat)
  : Rendered (list (bool * option JSON.value)) :=
  match count with
  | O => Shown []
  | S count' =>
      match card result index with
      | Shown c =>
          match cards result (S index) count' with
          | Shown cs => Shown (c :: cs)
          | Crashed => Crashed
          end
      | Crashed => Crashed
      end
  end.

(** The lookups of all cards of the grid, in card order. *)
Definition renderGrid (st : State) : Rendered (list (bool * option JSON.value)) :=
  cards (result st) O (length (images st)).

(** [file] is an image of type [tp.1] and was read as the data URL of
    payload [tp.2], neither containing a comma. *)
Definition readAs (file : File) (tp : string * string) : Prop :=
  type file = tp.1
  /\ startsWith tp.1 "image/" = true
  /\ readerResult file = Some (dataUrl tp.1 tp.2)
  /\ contains "," tp.1 = false
  /\ contains "," tp.2 = false.
End QualityComparator.

(** ** The reference image picker (components/ImageUploader.tsx) *)

Module ImageUploader.

(** [processFile]: what [onImageSelect] is called with when the reader
    finishes, [None] when it is not called (not an image, or a failed read
    whose null result makes [split] throw).  The first component is
    [undefined] when the data URL has no comma. *)
Definition processFile (file : QualityComparator.File)
  : option (option string * string) :=
  if startsWith (QualityComparator.type file) "image/" then
    match QualityComparator.readerResult file with
    | Some base64String =>
        Some (QualityComparator.split "," base64String !! 1%nat,
              QualityComparator.type file)
    | None => None
    end
  else None.

(** [handleFileChange] and [handleDrop]: only [files?.[0]] is processed. *)
Definition handleFiles (files : list QualityComparator.File)
  : option (option string * string) :=
  match files with
  | file :: _ => processFile file
  | [] => None
  end.

End ImageUploader.

(** ** A result card (components/ResultCard.tsx) *)

Module ResultCard.

(** The anchor [handleDownload] builds and clicks. *)
Record Anchor := mkAnchor {
  href : string;
  download : string
}.

Definition handleDownload (image : App.GeneratedImage) : Anchor :=
  {| href := App.url image;
     download := "visionary-ai-" +:+ App.id image +:+ ".png" |}.

End ResultCard.

(** ** Sample runs *)

Module Scenario.

Definition imageResponse (d : string) : Gemini.Reply :=
  Gemini.Responds
    {| Gemini.candidates :=
         Some [ {| Gemini.content :=
                     Some {| Gemini.parts :=
                               Some [ {| Gemini.text := None;
                                         Gemini.inlineData :=
                                           Some {| Gemini.mimeType :=
                                                     Some "image/png";
                                                   Gemini.data := Some d |} |} ] |} |} ];
       Gemini.response_text := None |}.

(** Invocation 0 succeeds at once, invocation 2 on its second attempt,
    invocations 1 and 3 never. *)
Definition twoOfFour (index : nat) : Gemini.Provider :=
  fun n _ =>
    match index with
    | 0%nat => imageResponse "AAAA"
    | 2%nat => if (n =? 1)%nat then imageResponse "CCCC"
               else Gemini.Raises "503 overloaded"
    | _ => Gemini.Raises "503 overloaded"
    end.

Definition allFail (index : nat) : Gemini.Provider :=
  fun _ _ => Gemini.Raises "503 overloaded".

Definition quoted (s : string) : string := dq +:+ s +:+ dq.

Definition threeImages : list Gemini.ImageInput :=
  [ {| Gemini.image_data := "AAAA"; Gemini.image_mimeType := "image/png" |};
    {| Gemini.image_data := "BBBB"; Gemini.image_mimeType := "image/jpeg" |};
    {| Gemini.image_data := "CCCC"; Gemini.image_mimeType := "image/webp" |} ].

Definition answering (payload : option string) : Gemini.Provider :=
  fun _ _ => Gemini.Responds
    {| Gemini.candidates := None; Gemini.response_text := payload |}.

(** A payload with a winner and a reason but no [analyses] field. *)
Definition winnerOnly : string :=
  "{" +:+ quoted "bestImageIndex" +:+ ":0," +:+ quoted "winnerReason" +:+ ":"
      +:+ quoted "sharpest" +:+ "}".

Definition analysis (index score : string) : string :=
  "{" +:+ quoted "index" +:+ ":" +:+ index +:+ "," +:+ quoted "score" +:+ ":"
      +:+ score +:+ "," +:+ quoted "critique" +:+ ":" +:+ quoted "fine" +:+ "}".

(** A payload of the declared schema that ranks image 7 best and analyses
    one image only. *)
Definition outOfRange : string :=
  "{" +:+ quoted "bestImageIndex" +:+ ":7," +:+ quoted "winnerReason" +:+ ":"
      +:+ quoted "sharpest" +:+ "," +:+ quoted "analyses" +:+ ":["
      +:+ analysis "0" "90" +:+ "]}".

(** A payload that ranks the three images as the specification describes. *)
Definition ranked : string :=
  "{" +:+ quoted "bestImageIndex" +:+ ":2," +:+ quoted "winnerReason" +:+ ":"
      +:+ quoted "sharpest" +:+ "," +:+ quoted "analyses" +:+ ":["
      +:+ analysis "1" "70" +:+ "," +:+ analysis "0" "55" +:+ ","
      +:+ analysis "2" "91" +:+ "]}".

Definition pngFile (payload : string) : QualityComparator.File :=
  {| QualityComparator.type := "image/png";
     QualityComparator.readerResult :=
       Some ("data:image/png;base64," +:+ payload) |}.

Definition refImage : App.RefImage :=
  {| App.data := "QUJD"; App.mime := "image/png";
     App.preview := "data:image/png;base64,QUJD" |}.

(** A reference image and an instruction are set; nothing generated yet. *)
Definition readyState : App.State :=
  {| App.refImage := Some refImage;
     App.promptText := "a red fox";
     App.ratio := "1:1";
     App.enhanceQuality := false;
     App.results := [];
     App.genState := {| App.isGenerating := false; App.progress := 0;
                        App.error := None |} |}.

(** Invocation 2 settles first, then 0, 3 and 1. *)
Definition someSchedule : list App.Completion :=
  [ {| App.who := 2; App.idClock := 1700; App.createdClock := 1700 |};
    {| App.who := 0; App.idClock := 1800; App.createdClock := 1801 |};
    {| App.who := 3; App.idClock := 7100; App.createdClock := 7100 |};
    {| App.who := 1; App.idClock := 7200; App.createdClock := 7200 |} ].


(** A provider that never answers with an image. *)
Definition allFail_provider : Gemini.Provider :=
  fun _ _ => Gemini.Raises "503 overloaded".

(** The comparator after one upload of three PNG files. *)
Definition threeUploaded : QualityComparator.State :=
  QualityComparator.processFiles
    [pngFile "AAAA"; pngFile "BBBB"; pngFile "CCCC"]
    [pngFile "AAAA"; pngFile "BBBB"; pngFile "CCCC"]
    QualityComparator.initialState.

Definition threePngs : list Gemini.ImageInput :=
  [ {| Gemini.image_data := "AAAA"; Gemini.image_mimeType := "image/png" |};
    {| Gemini.image_data := "BBBB"; Gemini.image_mimeType := "image/png" |};
    {| Gemini.image_data := "CCCC"; Gemini.image_mimeType := "image/png" |} ].
End Scenario.

(** * Properties *)

(** ** Strings *)

Lemma prefix_append (s t : string) : String.prefix s (s +:+ t) = true.
Proof.
  induction s as [|c s IH]; simpl.
  - destruct t; reflexivity.
  - destruct (Ascii.ascii_dec c c) as [_|ne]; [exact IH|congruence].
Qed.

(** ** The Variation Generator *)

Section GeneratorFacts.

Import Gemini.

Lemma firstImage_none ps :
  Forall (fun p => imageData p = None) ps -> firstImage ps = None.
Proof.
  induction 1 as [|p ps Hp _ IH]; simpl; [reflexivity|].
  rewrite Hp. exact IH.
Qed.

Lemma firstImage_first before p after d :
  Forall (fun q => imageData q = None) before ->
  imageData p = Some d ->
  firstImage (before ++ p :: after) = Some d.
Proof.
  induction 1 as [|q qs Hq _ IH]; intros Hp; simpl.
  - rewrite Hp. reflexivity.
  - rewrite Hq. auto.
Qed.

Lemma inspectResponse_image r d :
  firstImage (contentParts r) = Some d ->
  inspectResponse r = inr ("data:image/png;base64," +:+ d).
Proof.
  unfold inspectResponse, contentParts.
  destruct (candidates r) as [[|c cs]|]; simpl; try discriminate.
  destruct (content c) as [ct|]; simpl; try discriminate.
  destruct (parts ct) as [ps|]; simpl; try discriminate.
  intros ->. reflexivity.
Qed.

Lemma inspectResponse_no_image r :
  firstImage (contentParts r) = None -> exists m, inspectResponse r = inl m.
Proof.
  unfold inspectResponse, contentParts.
  destruct (candidates r) as [[|c cs]|]; simpl; eauto.
  destruct (content c) as [ct|]; simpl; eauto.
  destruct (parts ct) as [ps|]; simpl; eauto.
  intros ->. eauto.
Qed.

Lemma attemptFails_message rep :
  attemptFails rep -> tryAttempt rep = inl (failureMessage rep).
Proof.
  unfold failureMessage. destruct rep as [m|r]; simpl; [reflexivity|].
  intros H. apply firstImage_none in H.
  destruct (inspectResponse_no_image r H) as [m ->]. reflexivity.
Qed.

(** Whatever [inspectResponse] returns is a non-empty data URL. *)
Lemma tryAttempt_url_truthy rep u : tryAttempt rep = inr u -> truthy u = true.
Proof.
  destruct rep as [m|r]; simpl; [discriminate|].
  unfold inspectResponse.
  destruct (candidates r) as [[|c cs]|]; try discriminate.
  destruct (content c) as [ct|]; try discriminate.
  destruct (parts ct) as [ps|]; try discriminate.
  destruct (firstImage ps); try discriminate.
  intros [= <-]. reflexivity.
Qed.

Lemma ncalls_app tr1 tr2 : ncalls (tr1 ++ tr2) = (ncalls tr1 + ncalls tr2)%nat.
Proof. unfold ncalls. rewrite filter_app, length_app. reflexivity. Qed.

Lemma waits_app tr1 tr2 : waits (tr1 ++ tr2) = waits tr1 ++ waits tr2.
Proof. unfold waits. apply omap_app. Qed.

Variable provider : Provider.
Variables referenceImageBase64 mimeType_ prompt aspectRatio : string.
Variable enhanceQuality : bool.
Variable maxRetries : Z.

Local Abbreviation req :=
  (generationRequest referenceImageBase64 mimeType_ prompt aspectRatio
     enhanceQuality).
Local Abbreviation loop :=
  (retryLoop provider referenceImageBase64 mimeType_ prompt aspectRatio
     enhanceQuality maxRetries).

(** The three ways through one iteration of the [for] loop. *)

Lemma retryLoop_exit a le tr :
  maxRetries < a -> loop a le tr = (None, tr ++ [LogError le]).
Proof.
  intros H. simp retryLoop.
  destruct (Z_le_dec a maxRetries); [lia|]. reflexivity.
Qed.

Lemma retryLoop_success a le tr url :
  a <= maxRetries ->
  tryAttempt (provider (ncalls tr) req) = inr url ->
  loop a le tr = (Some url, tr ++ [Call req]).
Proof.
  intros H E. simp retryLoop.
  destruct (Z_le_dec a maxRetries); [|lia]. simpl.
  rewrite E. reflexivity.
Qed.

Lemma retryLoop_failure a le tr m :
  a <= maxRetries ->
  tryAttempt (provider (ncalls tr) req) = inl m ->
  loop a le tr =
    loop (a + 1) (Some m) (onFailure maxRetries a m (tr ++ [Call req])).
Proof.
  intros H E. rewrite retryLoop_equation_1 at 1.
  destruct (Z_le_dec a maxRetries); [|lia]. simpl.
  rewrite E. reflexivity.
Qed.

(** The loop never fails to return, and its trace extends the one it
    started from. *)
Lemma retryLoop_extends n : forall a le tr,
  Z.to_nat (maxRetries + 1 - a) = n ->
  exists tr', snd (loop a le tr) = tr ++ tr'.
Proof.
  induction n as [|n IH]; intros a le tr Hn.
  - rewrite retryLoop_exit by lia. eauto.
  - destruct (tryAttempt (provider (ncalls tr) req)) as [m|url] eqn:E.
    + rewrite (retryLoop_failure a le tr m) by (lia || exact E).
      destruct (IH (a + 1) (Some m)
                  (onFailure maxRetries a m (tr ++ [Call req]))) as [tr' ->];
        [lia|].
      unfold onFailure. destruct (a <? maxRetries);
        rewrite <- ?app_assoc; eauto.
    + rewrite (retryLoop_success a le tr url) by (lia || exact E). eauto.
Qed.

(** A returned image is a non-empty string. *)
Lemma retryLoop_truthy n : forall a le tr u,
  Z.to_nat (maxRetries + 1 - a) = n ->
  fst (loop a le tr) = Some u -> truthy u = true.
Proof.
  induction n as [|n IH]; intros a le tr u Hn.
  - rewrite retryLoop_exit by lia. discriminate.
  - destruct (tryAttempt (provider (ncalls tr) req)) as [m|url] eqn:E.
    + rewrite (retryLoop_failure a le tr m) by (lia || exact E).
      apply IH. lia.
    + rewrite (retryLoop_success a le tr url) by (lia || exact E).
      simpl. intros [= <-]. eapply tryAttempt_url_truthy, E.
Qed.

Section AlwaysFailing.

Hypothesis fails : forall n, attemptFails (provider n req).

Local Abbreviation msg :=
  (attemptMessage provider referenceImageBase64 mimeType_ prompt aspectRatio
     enhanceQuality).
Local Abbreviation round :=
  (failedRound provider referenceImageBase64 mimeType_ prompt aspectRatio
     enhanceQuality maxRetries).
Local Abbreviation lastRound :=
  (Gemini.lastRound provider referenceImageBase64 mimeType_ prompt aspectRatio
     enhanceQuality maxRetries).

Lemma retryLoop_all_fail n : forall a le tr,
  Z.to_nat (maxRetries - a) = n ->
  1 <= a <= maxRetries ->
  ncalls tr = Z.to_nat (a - 1) ->
  loop a le tr =
    (None, tr ++ flat_map round (seqZ a (maxRetries - a)) ++ lastRound).
Proof.
  induction n as [|n IH]; intros a le tr Hn Ha Hc.
  - assert (a = maxRetries) as -> by lia.
    rewrite (retryLoop_failure _ _ _ (msg maxRetries)); [|lia|].
    2:{ unfold attemptMessage. rewrite Hc. apply attemptFails_message, fails. }
    unfold onFailure. rewrite Z.ltb_irrefl.
    rewrite retryLoop_exit by lia.
    rewrite Z.sub_diag. simpl. rewrite <- !app_assoc. reflexivity.
  - rewrite (retryLoop_failure _ _ _ (msg a)); [|lia|].
    2:{ unfold attemptMessage. rewrite Hc. apply attemptFails_message, fails. }
    unfold onFailure.
    destruct (Z.ltb_spec a maxRetries) as [_|]; [|lia].
    rewrite IH; [|lia|lia|].
    2:{ rewrite !ncalls_app, Hc. simpl. unfold ncalls. simpl. lia. }
    rewrite (seqZ_cons a) by lia. simpl.
    replace (Z.succ a) with (a + 1) by lia.
    replace (Z.pred (maxRetries - a)) with (maxRetries - (a + 1)) by lia.
    rewrite <- !app_assoc. reflexivity.
Qed.

Lemma ncalls_rounds l : ncalls (flat_map round l) = length l.
Proof.
  induction l as [|i l IH]; [reflexivity|].
  change (flat_map round (i :: l)) with (round i ++ flat_map round l).
  rewrite ncalls_app, IH. reflexivity.
Qed.

Lemma waits_rounds l : waits (flat_map round l) = map backoff l.
Proof.
  induction l as [|i l IH]; [reflexivity|].
  change (flat_map round (i :: l)) with (round i ++ flat_map round l).
  rewrite waits_app, IH. reflexivity.
Qed.

Lemma all_fail_run :
  1 <= maxRetries ->
  let run := loop 1 None [] in
  fst run = None
  /\ snd run = failedRun provider referenceImageBase64 mimeType_ prompt
                 aspectRatio enhanceQuality maxRetries
  /\ ncalls (snd run) = Z.to_nat maxRetries
  /\ waits (snd run) = map backoff (seqZ 1 (maxRetries - 1)).
Proof.
  intros Hk run. subst run.
  rewrite (retryLoop_all_fail (Z.to_nat (maxRetries - 1))); try lia;
    [|reflexivity].
  simpl. repeat split.
  - rewrite ncalls_app, ncalls_rounds, length_seqZ.
    unfold ncalls. simpl. lia.
  - rewrite waits_app, waits_rounds.
    change (waits lastRound) with (@nil Z). apply app_nil_r.
Qed.

End AlwaysFailing.

End GeneratorFacts.

Lemma append_empty_r (s : string) : s +:+ "" = s.
Proof.
  induction s as [|c s IH]; [reflexivity|].
  change (String c (s +:+ "") = String c s). f_equal. exact IH.
Qed.

Lemma append_length (s t : string) :
  String.length (s +:+ t) = (String.length s + String.length t)%nat.
Proof.
  induction s as [|c s IH]; [reflexivity|].
  change (S (String.length (s +:+ t)) = S (String.length s + String.length t)).
  f_equal. exact IH.
Qed.

(** C8.  For every instruction text, aspect ratio and reference image, the
    prompt built with [enhanceQuality = false] is a prefix of the prompt
    built with [enhanceQuality = true].  The base block is the text of
    geminiService.ts:18-26: it opens with the analysis directive, quotes the
    instruction, lists the requirements with the aspect ratio and closes
    with the directive to generate; it is never empty and opens both
    prompts.  Without the flag the prompt is the base block alone; with the
    flag the enhancement block of lines 29-36 (454 characters, from the
    blank line to the aesthetics directive) follows it and nothing else
    does.  The prompt is the text part of the request whatever the
    reference image. *)
Theorem prompt_two_tier (prompt aspectRatio : string) :
  String.prefix (Gemini.systemPrompt prompt aspectRatio false)
                (Gemini.systemPrompt prompt aspectRatio true) = true
  /\ (forall e,
        String.prefix (Gemini.basePrompt prompt aspectRatio)
                      (Gemini.systemPrompt prompt aspectRatio e) = true)
  /\ (forall e,
        Gemini.systemPrompt prompt aspectRatio e =
          Gemini.basePrompt prompt aspectRatio
            +:+ (if e then Gemini.enhancementBlock else ""))
  /\ Gemini.enhancementBlock <> ""
  /\ (forall referenceImageBase64 mimeType e,
        Gemini.text <$>
          head (Gemini.contents
                  (Gemini.generationRequest referenceImageBase64 mimeType
                     prompt aspectRatio e))
        = Some (Some (Gemini.systemPrompt prompt aspectRatio e)))
  /\ Gemini.basePrompt prompt aspectRatio =
       ("Analyze the attached reference image carefully for style, composition, and key features. " +:+ nl +:+
        "              " +:+ nl +:+
        "  Task: Generate a high-fidelity, photorealistic new image based on this analysis and the following instruction: " +:+ dq)
       +:+ prompt +:+
       (dq +:+ "." +:+ nl +:+
        "  " +:+ nl +:+
        "  Requirements:" +:+ nl +:+
        "  - Output Resolution: 8K equivalent detail." +:+ nl +:+
        "  - Quality: Masterpiece, highly detailed, sharp focus." +:+ nl +:+
        "  - Aspect Ratio: ")
       +:+ aspectRatio +:+
       ("." +:+ nl +:+
        "  - Do not simply describe the image; generate the visual result.")
  /\ Gemini.basePrompt prompt aspectRatio <> ""
  /\ String.length (Gemini.basePrompt prompt aspectRatio)
     = (427 + String.length prompt + String.length aspectRatio)%nat
  /\ (forall e,
        String.prefix
          "Analyze the attached reference image carefully for style, composition, and key features. "
          (Gemini.systemPrompt prompt aspectRatio e) = true)
  /\ Gemini.systemPrompt prompt aspectRatio false
     = Gemini.basePrompt prompt aspectRatio
  /\ Gemini.enhancementBlock =
       nl +:+
       "    " +:+ nl +:+
       "    CRITICAL ENHANCEMENT INSTRUCTIONS:" +:+ nl +:+
       "    - MODE: ULTRA-REALISM & TEXTURE UPSCALING." +:+ nl +:+
       "    - Lighting: Apply volumetric lighting, ray-tracing style shadows, and professional color grading (HDR)." +:+ nl +:+
       "    - Details: Enhance micro-textures (skin pores, fabric threads, material imperfections)." +:+ nl +:+
       "    - Clarity: Eliminate all compression artifacts, blur, or noise. Denoise and sharpen." +:+ nl +:+
       "    - Aesthetics: Cinematic composition, award-winning photography style."
  /\ String.length (Gemini.systemPrompt prompt aspectRatio true)
     = (String.length (Gemini.systemPrompt prompt aspectRatio false) + 454)%nat.
Proof.
  assert (Hbase : Gemini.basePrompt prompt aspectRatio =
            String "A" ("nalyze the attached reference image carefully for style, composition, and key features. " +:+ nl +:+
            "              " +:+ nl +:+
            "  Task: Generate a high-fidelity, photorealistic new image based on this analysis and the following instruction: " +:+ dq
            +:+ prompt +:+
            (dq +:+ "." +:+ nl +:+
             "  " +:+ nl +:+
             "  Requirements:" +:+ nl +:+
             "  - Output Resolution: 8K equivalent detail." +:+ nl +:+
             "  - Quality: Masterpiece, highly detailed, sharp focus." +:+ nl +:+
             "  - Aspect Ratio: ")
            +:+ aspectRatio +:+
            ("." +:+ nl +:+
             "  - Do not simply describe the image; generate the visual result.")))
    by reflexivity.
  assert (Hlen : String.length (Gemini.basePrompt prompt aspectRatio)
                 = (427 + String.length prompt + String.length aspectRatio)%nat).
  { rewrite Hbase. cbn [String.length].
    rewrite !append_length.
    change (String.length nl) with 1%nat.
    change (String.length dq) with 1%nat.
    cbn [String.length]. lia. }
  unfold Gemini.systemPrompt.
  split; [apply prefix_append|].
  split.
  { intros [|]; [apply prefix_append|].
    rewrite <- (append_empty_r (Gemini.basePrompt _ _)) at 2.
    apply prefix_append. }
  split.
  { intros [|]; [reflexivity|]. symmetry. apply append_empty_r. }
  split; [discriminate|].
  split; [reflexivity|].
  split; [reflexivity|].
  split; [rewrite Hbase; discriminate|].
  split; [exact Hlen|].
  split.
  { intros e.
    assert (Hopen : forall rest,
              String.prefix
                "Analyze the attached reference image carefully for style, composition, and key features. "
                (Gemini.basePrompt prompt aspectRatio +:+ rest) = true)
      by (intros rest; vm_compute; reflexivity).
    destruct e; [apply Hopen|].
    rewrite <- (append_empty_r (Gemini.basePrompt _ _)). apply Hopen. }
  split; [reflexivity|].
  split; [reflexivity|].
  rewrite append_length. reflexivity.
Qed.

(** C2.  With [maxRetries = k >= 1] and a provider whose every attempt
    fails (the call raises, or no reachable part carries a payload), the
    generator returns [null]; its trace is exactly [failedRun]: for each
    attempt [i] in [1..k-1] a call, a warning and a delay of
    [1000 * 2^(i-1)] ms, then the call and warning of attempt [k] followed
    directly by the final console error.  So there are [k] calls, the
    delays are 1s, 2s, 4s, ... in this order, and none follows the last
    attempt. *)
Theorem always_failing_backoff
  (provider : Gemini.Provider)
  (referenceImageBase64 mimeType prompt aspectRatio : string)
  (enhanceQuality : bool) (k : Z) :
  1 <= k ->
  (forall n, Gemini.attemptFails
     (provider n (Gemini.generationRequest referenceImageBase64 mimeType
                    prompt aspectRatio enhanceQuality))) ->
  let run := Gemini.generateImageVariation provider referenceImageBase64
               mimeType prompt aspectRatio enhanceQuality k in
  fst run = None
  /\ snd run = Gemini.failedRun provider referenceImageBase64 mimeType
                 prompt aspectRatio enhanceQuality k
  /\ Gemini.ncalls (snd run) = Z.to_nat k
  /\ Gemini.waits (snd run) = map (fun i => 1000 * 2 ^ (i - 1)) (seqZ 1 (k - 1)).
Proof.
  intros Hk Hfail. apply all_fail_run; assumption.
Qed.

Lemma always_failing_backoff_witness :
  let provider : Gemini.Provider := fun _ _ => Gemini.Raises "503 overloaded" in
  let run := Gemini.generateImageVariation provider "QUJD" "image/png"
               "a red fox" "1:1" false 3 in
  1 <= 3
  /\ (forall n, Gemini.attemptFails
        (provider n (Gemini.generationRequest "QUJD" "image/png" "a red fox"
                       "1:1" false)))
  /\ fst run = None
  /\ Gemini.ncalls (snd run) = 3%nat
  /\ Gemini.waits (snd run) = [1000; 2000].
Proof.
  intros provider run.
  assert (H1 : 1 <= 3) by lia.
  assert (H2 : forall n, Gemini.attemptFails
            (provider n (Gemini.generationRequest "QUJD" "image/png"
                           "a red fox" "1:1" false))) by (intros n; exact I).
  destruct (always_failing_backoff provider "QUJD" "image/png" "a red fox"
              "1:1" false 3 H1 H2) as (Hr & _ & Hc & Hw).
  repeat split; assumption.
Defined.



(** C9.  With [maxRetries < 1] the loop body never runs: no provider call,
    no delay, and [null] is returned after the final console error. *)
Theorem no_attempt_below_one
  (provider : Gemini.Provider)
  (referenceImageBase64 mimeType prompt aspectRatio : string)
  (enhanceQuality : bool) (maxRetries : Z) :
  maxRetries < 1 ->
  let run := Gemini.generateImageVariation provider referenceImageBase64
               mimeType prompt aspectRatio enhanceQuality maxRetries in
  fst run = None
  /\ snd run = [Gemini.LogError None]
  /\ Gemini.ncalls (snd run) = O
  /\ Gemini.waits (snd run) = [].
Proof.
  intros H run. subst run. unfold Gemini.generateImageVariation.
  rewrite retryLoop_exit by lia. repeat split.
Qed.

Lemma no_attempt_below_one_witness :
  let provider : Gemini.Provider :=
    fun _ _ => Gemini.Raises "never reached" in
  let run := Gemini.generateImageVariation provider "QUJD" "image/png"
               "a red fox" "1:1" false 0 in
  0 < 1
  /\ fst run = None
  /\ Gemini.ncalls (snd run) = O
  /\ Gemini.waits (snd run) = [].
Proof.
  intros provider run.
  assert (H : 0 < 1) by lia.
  destruct (no_attempt_below_one provider "QUJD" "image/png" "a red fox"
              "1:1" false 0 H) as (Hr & _ & Hc & Hw).
  repeat split; assumption.
Defined.

(** ** The Batch Orchestrator *)

Section BatchFacts.

Import App.

Variable providers : nat -> Gemini.Provider.
Variable ref : RefImage.
Variable st0 : State.

Local Abbreviation variation := (App.variation providers ref st0).
Local Abbreviation produced := (App.produced providers ref st0).
Local Abbreviation afterVariation := (App.afterVariation providers ref st0).
Local Abbreviation settleAll := (App.settleAll providers ref st0).
Local Abbreviation successes := (App.successes providers ref st0).

Lemma variation_truthy i u : variation i = Some u -> truthy u = true.
Proof.
  unfold App.variation, Gemini.generateImageVariation.
  apply (retryLoop_truthy _ _ _ _ _ _ _ (Z.to_nat (3 + 1 - 1))). reflexivity.
Qed.

(** An invocation whose provider fails three times yields absence. *)
Lemma variation_exhausted i :
  (forall n, Gemini.attemptFails
     (providers i n (Gemini.generationRequest (data ref) (mime ref)
                       (promptText st0) (ratio st0) (enhanceQuality st0)))) ->
  variation i = None.
Proof.
  intros H. unfold App.variation.
  apply (all_fail_run (providers i) _ _ _ _ _ 3 H). lia.
Qed.

Lemma afterVariation_produced c r :
  afterVariation c r =
    match produced c with
    | Some g => resolve (who c) (Some g) (doSetGenState incrementProgress r)
    | None => resolve (who c) None r
    end.
Proof.
  unfold App.afterVariation, App.produced.
  destruct (variation (who c)) as [u|] eqn:E; [|reflexivity].
  rewrite (variation_truthy _ _ E). reflexivity.
Qed.

Local Abbreviation wins := (App.wins providers ref st0).
Local Abbreviation fill := (App.fill providers ref st0).
Local Abbreviation slot := (App.slot providers ref st0).

Lemma wins_cons c sched :
  wins (c :: sched) =
    (match produced c with Some _ => 1 | None => 0 end + wins sched)%nat.
Proof.
  unfold wins. rewrite filter_cons.
  destruct (decide (is_Some (produced c))) as [[g Hg]|Hn].
  - rewrite Hg. reflexivity.
  - destruct (produced c) as [g|]; [exfalso; apply Hn; eauto|reflexivity].
Qed.

Lemma settleAll_slots sched : forall r,
  generatedResults (settleAll sched r) = fill (generatedResults r) sched.
Proof.
  induction sched as [|c sched IH]; intros r; [reflexivity|].
  unfold App.settleAll, fill in *. simpl. rewrite IH. f_equal.
  rewrite afterVariation_produced. destruct (produced c); reflexivity.
Qed.

Lemma settleAll_results sched : forall r,
  results (current (settleAll sched r)) = results (current r).
Proof.
  induction sched as [|c sched IH]; intros r; [reflexivity|].
  unfold App.settleAll in *. simpl. rewrite IH.
  rewrite afterVariation_produced. destruct (produced c); reflexivity.
Qed.

Lemma settleAll_genState sched : forall r,
  genState (current (settleAll sched r)) =
    Nat.iter (wins sched) incrementProgress (genState (current r)).
Proof.
  induction sched as [|c sched IH]; intros r; [reflexivity|].
  unfold App.settleAll in *. simpl. rewrite IH, wins_cons.
  rewrite afterVariation_produced. destruct (produced c); [|reflexivity].
  change (1 + wins sched)%nat with (S (wins sched)).
  rewrite Nat.iter_succ_r. reflexivity.
Qed.

Lemma settleAll_history sched : forall r,
  history (settleAll sched r) =
    history r ++
    map (fun k => Nat.iter k incrementProgress (genState (current r)))
        (seq 1 (wins sched)).
Proof.
  induction sched as [|c sched IH]; intros r.
  - simpl. symmetry. apply app_nil_r.
  - unfold App.settleAll in *. simpl. rewrite IH, wins_cons.
    rewrite afterVariation_produced. destruct (produced c); [|reflexivity].
    change (1 + wins sched)%nat with (S (wins sched)).
    change (history (resolve (who c) (Some g)
                       (doSetGenState incrementProgress r)))
      with (history r ++ [incrementProgress (genState (current r))]).
    change (genState (current (resolve (who c) (Some g)
                                 (doSetGenState incrementProgress r))))
      with (incrementProgress (genState (current r))).
    rewrite <- app_assoc. f_equal.
    change (seq 1 (S (wins sched))) with (1%nat :: seq 2 (wins sched)).
    rewrite <- (seq_shift (wins sched) 1), map_cons, map_map.
    simpl app. f_equal. apply map_ext. intros k.
    rewrite Nat.iter_succ_r. reflexivity.
Qed.

Lemma iter_increment k g :
  Nat.iter k incrementProgress g =
    {| isGenerating := isGenerating g; progress := progress g + Z.of_nat k;
       error := error g |}.
Proof.
  induction k as [|k IH].
  - simpl. destruct g; simpl. f_equal. lia.
  - rewrite Nat.iter_succ, IH. unfold incrementProgress. simpl. f_equal. lia.
Qed.

Lemma fill_length sched : forall l, length (fill l sched) = length l.
Proof.
  induction sched as [|c sched IH]; intros l; [reflexivity|].
  unfold fill in *. simpl. rewrite IH. apply length_insert.
Qed.

Lemma completionOf_who sched i c : completionOf sched i = Some c -> who c = i.
Proof.
  unfold completionOf. intros H. apply find_some in H as [_ H].
  apply Nat.eqb_eq, H.
Qed.

Lemma completionOf_none sched i :
  i ∉ map who sched -> completionOf sched i = None.
Proof.
  unfold completionOf. induction sched as [|c sched IH]; intros H; [reflexivity|].
  simpl in *. destruct (Nat.eqb_spec (who c) i) as [<-|ne].
  - exfalso. apply H. left.
  - apply IH. intros Hin. apply H. right. exact Hin.
Qed.

Lemma completionOf_some sched i :
  i ∈ map who sched -> is_Some (completionOf sched i).
Proof.
  unfold completionOf. induction sched as [|c sched IH]; intros H.
  - inversion H.
  - simpl in *. destruct (Nat.eqb_spec (who c) i) as [<-|ne]; [eauto|].
    apply IH. inversion H; subst; [congruence|assumption].
Qed.

Lemma fill_lookup sched : forall l i,
  NoDup (map who sched) ->
  (i < length l)%nat ->
  fill l sched !! i =
    match completionOf sched i with
    | Some c => Some (produced c)
    | None => l !! i
    end.
Proof.
  induction sched as [|c sched IH]; intros l i Hnd Hi; [reflexivity|].
  simpl in Hnd. apply NoDup_cons in Hnd as [Hc Hnd].
  change (fill l (c :: sched)) with (fill (<[who c := produced c]> l) sched).
  rewrite IH; [|exact Hnd|rewrite length_insert; exact Hi].
  unfold completionOf at 2. simpl. fold (completionOf sched i).
  destruct (Nat.eqb_spec (who c) i) as [<-|ne].
  - rewrite completionOf_none by exact Hc.
    apply list_lookup_insert_eq. exact Hi.
  - destruct (completionOf sched i); [reflexivity|].
    apply list_lookup_insert_ne. exact ne.
Qed.

Lemma wins_map sched :
  wins sched =
    length (filter (fun i => is_Some (variation i)) (map who sched)).
Proof.
  induction sched as [|c sched IH]; [reflexivity|].
  rewrite wins_cons, IH. simpl map. rewrite filter_cons.
  unfold App.produced.
  destruct (decide (is_Some (variation (who c)))) as [[u Hu]|Hn].
  - rewrite Hu. reflexivity.
  - destruct (variation (who c)); [exfalso; apply Hn; eauto|reflexivity].
Qed.

Lemma wins_successes sched : completeSchedule sched -> wins sched = successes.
Proof.
  intros H. rewrite wins_map. unfold App.successes.
  unfold completeSchedule in H. rewrite H. reflexivity.
Qed.

Lemma slots_complete sched :
  completeSchedule sched ->
  fill (replicate 4 None) sched = map (slot sched) (seq 0 4).
Proof.
  intros H. apply list_eq. intros i.
  destruct (decide (i < 4)%nat) as [Hi|Hi].
  - rewrite fill_lookup;
      [|unfold completeSchedule in H; rewrite H; apply NoDup_seq
       |rewrite length_replicate; exact Hi].
    rewrite list_lookup_fmap, lookup_seq_lt by exact Hi. simpl.
    destruct (completionOf_some sched i) as [c Hc].
    { unfold completeSchedule in H. rewrite H. apply elem_of_seq. lia. }
    unfold slot. rewrite Hc. reflexivity.
  - rewrite !lookup_ge_None_2; [reflexivity| |].
    + rewrite length_map, length_seq. lia.
    + rewrite fill_length, length_replicate. lia.
Qed.

Lemma slot_variation sched i :
  i ∈ map who sched -> url <$> slot sched i = variation i.
Proof.
  intros Hi. destruct (completionOf_some sched i Hi) as [c Hc].
  unfold slot. rewrite Hc. simpl.
  apply completionOf_who in Hc. unfold App.produced. rewrite Hc.
  destruct (variation i); reflexivity.
Qed.

Lemma slots_urls_on sched (l : list nat) :
  (forall i, i ∈ l -> i ∈ map who sched) ->
  map url (omap (slot sched) l) = omap variation l.
Proof.
  induction l as [|i l IH]; intros Hin; [reflexivity|].
  assert (Hi : url <$> slot sched i = variation i)
    by (apply slot_variation, Hin; left).
  assert (IH' : map url (omap (slot sched) l) = omap variation l)
    by (apply IH; intros j Hj; apply Hin; right; exact Hj).
  change (omap (slot sched) (i :: l)) with
    (match slot sched i with
     | Some g => g :: omap (slot sched) l
     | None => omap (slot sched) l
     end).
  change (omap variation (i :: l)) with
    (match variation i with
     | Some u => u :: omap variation l
     | None => omap variation l
     end).
  rewrite <- Hi. destruct (slot sched i); simpl; rewrite IH'; reflexivity.
Qed.

Lemma slots_urls sched :
  completeSchedule sched ->
  map url (omap (slot sched) (seq 0 4)) = omap variation (seq 0 4).
Proof.
  intros H. apply slots_urls_on. intros i Hi.
  unfold completeSchedule in H. rewrite H. exact Hi.
Qed.

Lemma omap_variation_length (l : list nat) :
  length (omap variation l) =
    length (filter (fun i => is_Some (variation i)) l).
Proof.
  induction l as [|i l IH]; [reflexivity|].
  change (omap variation (i :: l)) with
    (match variation i with
     | Some u => u :: omap variation l
     | None => omap variation l
     end).
  rewrite filter_cons.
  destruct (decide (is_Some (variation i))) as [[u Hu]|Hn].
  - rewrite Hu. simpl. rewrite IH. reflexivity.
  - destruct (variation i); [exfalso; apply Hn; eauto|exact IH].
Qed.

Lemma slots_count sched :
  completeSchedule sched ->
  length (omap (slot sched) (seq 0 4)) = successes.
Proof.
  intros H. rewrite <- (length_map url), slots_urls by exact H.
  apply omap_variation_length.
Qed.

Lemma omap_id_map {A B} (f : A -> option B) (l : list A) :
  omap (fun g => g) (map f l) = omap f l.
Proof.
  induction l as [|x l IH]; [reflexivity|].
  change (omap (fun g => g) (map f (x :: l))) with
    (match f x with
     | Some y => y :: omap (fun g => g) (map f l)
     | None => omap (fun g => g) (map f l)
     end).
  rewrite IH. reflexivity.
Qed.

(** The run up to the point where [Promise.all] resolves. *)
Lemma settled_run sched :
  completeSchedule sched ->
  let r := settleAll sched (launch st0) in
  validResults r = omap (slot sched) (seq 0 4)
  /\ results (current r) = []
  /\ genState (current r) =
       {| isGenerating := true; progress := Z.of_nat successes;
          error := None |}
  /\ history r =
       map (fun k => {| isGenerating := true; progress := Z.of_nat k;
                        error := None |})
           (seq 0 (S successes)).
Proof.
  intros H r. subst r. split; [|split; [|split]].
  - unfold validResults. rewrite settleAll_slots.
    change (generatedResults (launch st0)) with
      (replicate 4 (@None GeneratedImage)).
    rewrite slots_complete by exact H. apply omap_id_map.
  - rewrite settleAll_results. reflexivity.
  - rewrite settleAll_genState, iter_increment, wins_successes by exact H.
    reflexivity.
  - rewrite settleAll_history, wins_successes by exact H.
    change (seq 0 (S successes)) with (O :: seq 1 successes).
    rewrite map_cons. change (history (launch st0)) with
      [{| isGenerating := true; progress := 0; error := None |}].
    simpl app. f_equal. apply map_ext. intros k.
    rewrite iter_increment. reflexivity.
Qed.

End BatchFacts.

Lemma successes_le_4 providers ref st :
  (App.successes providers ref st <= 4)%nat.
Proof. unfold App.successes. apply (length_filter _ (seq 0 4)). Qed.

(** Everything a complete batch does to the component, in terms of the
    number [s] of invocations that produced an image: [setGenState] stores
    progress 0, 1, ..., [s] while generating, and then either the aggregate
    error with progress 0 (when [s = 0]) or progress 4 without error; the
    results are the produced images by invocation index. *)
Lemma batch_profile providers sched st ref :
  App.refImage st = Some ref ->
  truthy (App.promptText st) = true ->
  App.completeSchedule sched ->
  let s := App.successes providers ref st in
  let final :=
    if (s =? 0)%nat
    then {| App.isGenerating := false; App.progress := 0;
            App.error := Some App.batchError |}
    else {| App.isGenerating := false; App.progress := 4;
            App.error := None |} in
  let run := App.handleGenerate providers sched st in
  App.history run =
    map (fun k => {| App.isGenerating := true; App.progress := Z.of_nat k;
                     App.error := None |}) (seq 0 (S s)) ++ [final]
  /\ App.genState (App.current run) = final
  /\ App.results (App.current run) =
       omap (fun i => App.completionOf sched i ≫= App.produced providers ref st)
            (seq 0 4)
  /\ length (App.results (App.current run)) = s.
Proof.
  intros Href Hprompt Hsched s final run.
  destruct (settled_run providers ref st sched Hsched)
    as (Hvalid & Hres & Hgen & Hhist).
  pose proof (slots_count providers ref st sched Hsched) as Hcount.
  cbv beta zeta in Hvalid, Hcount. fold s in Hgen, Hhist, Hcount.
  assert (Hrun : run = App.afterAll
            (App.settleAll providers ref st sched (App.launch st))).
  { subst run. unfold App.handleGenerate. rewrite Href, Hprompt. reflexivity. }
  rewrite Hrun. unfold App.afterAll. rewrite Hvalid. rewrite Hcount.
  subst final. destruct (Nat.eqb_spec s 0) as [Hs|Hs].
  - unfold App.doSetGenState. simpl. rewrite Hhist, Hres.
    split; [reflexivity|]. split; [reflexivity|]. split.
    + symmetry. apply nil_length_inv. exact (eq_trans Hcount Hs).
    + symmetry. exact Hs.
  - unfold App.doSetGenState, App.doSetResults. simpl. rewrite Hhist.
    split; [reflexivity|]. split; [reflexivity|]. split; [reflexivity|].
    exact Hcount.
Qed.

Lemma someSchedule_complete : App.completeSchedule Scenario.someSchedule.
Proof.
  unfold App.completeSchedule.
  change (map App.who Scenario.someSchedule) with [2; 0; 3; 1]%nat.
  change (seq 0 4) with [0; 1; 2; 3]%nat.
  apply (bool_decide_unpack _). vm_compute. exact I.
Qed.

(** What holds of the progress counter for every complete batch: it is
    stored as 0 at launch, then as 1, 2, ..., [s] as the [s] successful
    invocations settle (so it equals the number of successes when the
    last one has settled and never exceeds 4), and the closing update
    stores 0 when [s = 0] and the constant 4 otherwise. *)
Lemma progress_profile providers sched st ref :
  App.refImage st = Some ref ->
  truthy (App.promptText st) = true ->
  App.completeSchedule sched ->
  let s := App.successes providers ref st in
  App.progressSeen (App.handleGenerate providers sched st) =
    map Z.of_nat (seq 0 (S s)) ++ [if (s =? 0)%nat then 0 else 4]
  /\ (s <= 4)%nat.
Proof.
  intros Href Hprompt Hsched s.
  destruct (batch_profile providers sched st ref Href Hprompt Hsched)
    as (Hhist & _).
  split; [|apply successes_le_4].
  unfold App.progressSeen. rewrite Hhist, map_app, map_map. fold s.
  f_equal. simpl. destruct (s =? 0)%nat; reflexivity.
Qed.

(** C1 (the code departs from it).  In a batch where invocations 0 and 2
    produce an image and invocations 1 and 3 return [null], the progress
    counter goes 0, 1, 2 and is then set to 4 by the closing update: it
    ends at 4 although 2 invocations succeeded. *)
Theorem progress_ends_at_four_after_two_successes :
  let run := App.handleGenerate Scenario.twoOfFour Scenario.someSchedule
               Scenario.readyState in
  App.successes Scenario.twoOfFour Scenario.refImage Scenario.readyState = 2%nat
  /\ App.progressSeen run = [0; 1; 2; 4]
  /\ App.progress (App.genState (App.current run)) = 4
  /\ length (App.results (App.current run)) = 2%nat.
Proof. vm_compute. repeat split. Qed.

(** C4.  In a complete batch in which exactly two of the four invocations
    produce an image, whatever the order in which they settle: the
    results hold exactly two images, they are the produced images in
    invocation (launch) order, and no stored state carries an error. *)
Theorem partial_success_launch_order providers sched st ref :
  App.refImage st = Some ref ->
  truthy (App.promptText st) = true ->
  App.completeSchedule sched ->
  App.successes providers ref st = 2%nat ->
  let run := App.handleGenerate providers sched st in
  length (App.results (App.current run)) = 2%nat
  /\ App.results (App.current run) =
       omap (fun i => App.completionOf sched i ≫= App.produced providers ref st)
            (seq 0 4)
  /\ map App.url (App.results (App.current run)) =
       omap (App.variation providers ref st) (seq 0 4)
  /\ App.error (App.genState (App.current run)) = None
  /\ Forall (fun g => App.error g = None) (App.history run).
Proof.
  intros Href Hprompt Hsched Hs run.
  destruct (batch_profile providers sched st ref Href Hprompt Hsched)
    as (Hhist & Hgen & Hres & Hlen).
  fold run in Hhist, Hgen, Hres, Hlen. rewrite Hs in *. simpl in Hhist, Hgen.
  split; [exact Hlen|]. split; [exact Hres|]. split; [|split].
  - rewrite Hres. apply (slots_urls providers ref st sched Hsched).
  - rewrite Hgen. reflexivity.
  - rewrite Hhist. repeat constructor.
Qed.

Lemma partial_success_launch_order_witness :
  let run := App.handleGenerate Scenario.twoOfFour Scenario.someSchedule
               Scenario.readyState in
  length (App.results (App.current run)) = 2%nat
  /\ map App.url (App.results (App.current run)) =
       ["data:image/png;base64,AAAA"; "data:image/png;base64,CCCC"]
  /\ App.error (App.genState (App.current run)) = None.
Proof.
  intros run.
  destruct (partial_success_launch_order Scenario.twoOfFour
              Scenario.someSchedule Scenario.readyState Scenario.refImage
              eq_refl eq_refl someSchedule_complete eq_refl)
    as (Hlen & _ & Hurl & Herr & _).
  split; [exact Hlen|]. split; [exact Hurl|exact Herr].
Defined.



(** ** The Quality Comparator *)

Lemma textOrEmptyObject_empty r :
  Gemini.emptyPayload r -> Gemini.textOrEmptyObject r = "{}".
Proof.
  unfold Gemini.textOrEmptyObject. intros [H|H]; rewrite H; reflexivity.
Qed.

Lemma textOrEmptyObject_truthy r t :
  Gemini.response_text r = Some t -> truthy t = true ->
  Gemini.textOrEmptyObject r = t.
Proof.
  unfold Gemini.textOrEmptyObject. intros -> ->. reflexivity.
Qed.

(** The comparator resolves with whatever [JSON.parse] makes of the
    payload, after exactly one call. *)
Lemma compare_returns_parsed provider images r v :
  provider O (Gemini.comparisonRequest images) = Gemini.Responds r ->
  JSON.parse (Gemini.textOrEmptyObject r) = Some v ->
  Gemini.compareImagesQuality provider images =
    (Gemini.Fulfilled v, [Gemini.Call (Gemini.comparisonRequest images)]).
Proof.
  intros Hr Hv. unfold Gemini.compareImagesQuality, Gemini.compareImagesQualityWith,
    Gemini.parseModel. rewrite Hr, Hv.
  reflexivity.
Qed.

(** C6 (as stated).  A response whose payload names a winner but has no
    [analyses] field is returned as the two-field object it parses to:
    nothing is raised, but the result is not the empty object. *)
Lemma omitted_analyses_not_empty :
  let r := {| Gemini.candidates := None;
              Gemini.response_text := Some Scenario.winnerOnly |} in
  let run := Gemini.compareImagesQuality
               (Scenario.answering (Some Scenario.winnerOnly))
               Scenario.threeImages in
  Gemini.omitsAnalyses r
  /\ fst run = Gemini.Fulfilled
       (JSON.Obj [("bestImageIndex", JSON.Num 0);
                  ("winnerReason", JSON.Str "sharpest")])
  /\ fst run <> Gemini.Fulfilled (JSON.Obj []).
Proof.
  vm_compute. split; [reflexivity|]. split; [reflexivity|]. discriminate.
Qed.

(** C6 (amended).  For every engine whose [JSON.parse] reads the text of
    the empty object as the empty object: when the provider responds and
    [response.text] is missing or empty, the comparator raises nothing and
    resolves with the empty object, after its single call.  Any other
    payload is handed to [JSON.parse] as it is and the comparator settles
    exactly as [JSON.parse] does for it, resolving with the value read,
    whatever its fields, and rejecting only if [JSON.parse] throws.  So a
    payload that only omits [analyses] yields the object it denotes, not
    the empty object. *)
Theorem lenient_on_empty_payload {V : Type}
  (JSON_parse : string -> Gemini.Settled V) (emptyObject : V)
  (provider : Gemini.Provider) (images : list Gemini.ImageInput)
  (r : Gemini.Response) :
  JSON_parse "{}" = Gemini.Fulfilled emptyObject ->
  provider O (Gemini.comparisonRequest images) = Gemini.Responds r ->
  let run := Gemini.compareImagesQualityWith JSON_parse provider images in
  (Gemini.emptyPayload r ->
     run = (Gemini.Fulfilled emptyObject,
            [Gemini.Call (Gemini.comparisonRequest images)]))
  /\ (forall t,
        Gemini.response_text r = Some t -> truthy t = true ->
        run = (JSON_parse t,
               [Gemini.Call (Gemini.comparisonRequest images)]))
  /\ (Gemini.emptyPayload r
      \/ exists t, Gemini.response_text r = Some t /\ truthy t = true).
Proof.
  intros Hempty Hr run. subst run. unfold Gemini.compareImagesQualityWith.
  rewrite Hr. split; [|split].
  - intros He. rewrite textOrEmptyObject_empty by exact He.
    rewrite Hempty. reflexivity.
  - intros t Ht Htruthy.
    rewrite (textOrEmptyObject_truthy r t) by assumption. reflexivity.
  - unfold Gemini.emptyPayload.
    destruct (Gemini.response_text r) as [[|c t]|]; eauto.
Qed.

Lemma lenient_on_empty_payload_witness :
  let missing := {| Gemini.candidates := None;
                    Gemini.response_text := None |} in
  let run := Gemini.compareImagesQuality (Scenario.answering None)
               Scenario.threeImages in
  Gemini.emptyPayload missing
  /\ run = (Gemini.Fulfilled (JSON.Obj []),
            [Gemini.Call (Gemini.comparisonRequest Scenario.threeImages)]).
Proof.
  intros missing run.
  assert (He : Gemini.emptyPayload missing) by (left; reflexivity).
  split; [exact He|].
  exact (proj1 (lenient_on_empty_payload Gemini.parseModel (JSON.Obj [])
                  (Scenario.answering None) Scenario.threeImages missing
                  eq_refl eq_refl) He).
Defined.

(** C7 (as stated).  Called with three images, the comparator returns a
    result with a single analysis and [bestImageIndex = 7] when that is
    what the provider's payload says. *)
Lemma three_images_unranked_result :
  let run := Gemini.compareImagesQuality
               (Scenario.answering (Some Scenario.outOfRange))
               Scenario.threeImages in
  length Scenario.threeImages = 3%nat
  /\ exists v, fst run = Gemini.Fulfilled v
       /\ JSON.get "bestImageIndex" v = Some (JSON.Num 7)
       /\ (exists a, JSON.get "analyses" v = Some (JSON.Arr [a]))
       /\ ~ Gemini.wellRanked 3 v.
Proof.
  split; [reflexivity|]. eexists. split; [vm_compute; reflexivity|].
  split; [reflexivity|]. split; [eexists; reflexivity|].
  unfold Gemini.wellRanked. simpl. intros (Hlen & _). discriminate.
Qed.

(** C7 (amended).  For every engine: called with exactly three images,
    the comparator sends one request holding the rubric followed by the
    three images in input order, and when the provider responds it settles
    with exactly what [JSON.parse] makes of the payload, unvalidated.  So
    whatever can be said of a returned value (that it has three analyses
    with distinct indices in [0,2] and a [bestImageIndex] in {0,1,2}, for
    one) holds of the result exactly when it holds of the value the
    payload denotes. *)
Theorem three_images_ranked_as_provider {V : Type}
  (JSON_parse : string -> Gemini.Settled V) (ranked : V -> Prop)
  (provider : Gemini.Provider) (images : list Gemini.ImageInput)
  (r : Gemini.Response) :
  length images = 3%nat ->
  provider O (Gemini.comparisonRequest images) = Gemini.Responds r ->
  let run := Gemini.compareImagesQualityWith JSON_parse provider images in
  fst run = JSON_parse (Gemini.textOrEmptyObject r)
  /\ ((exists v, fst run = Gemini.Fulfilled v /\ ranked v)
      <-> (exists v, JSON_parse (Gemini.textOrEmptyObject r)
                     = Gemini.Fulfilled v /\ ranked v))
  /\ snd run = [Gemini.Call (Gemini.comparisonRequest images)]
  /\ Gemini.contents (Gemini.comparisonRequest images) =
       {| Gemini.text := Some Gemini.comparePrompt;
          Gemini.inlineData := None |} :: Gemini.imageParts images
  /\ length (Gemini.imageParts images) = 3%nat
  /\ map Gemini.inlineData (Gemini.imageParts images) =
       map (fun img => Some {| Gemini.mimeType := Some (Gemini.image_mimeType img);
                               Gemini.data := Some (Gemini.image_data img) |})
           images.
Proof.
  intros Hlen Hr run. subst run. unfold Gemini.compareImagesQualityWith.
  rewrite Hr. cbn [fst snd].
  split; [reflexivity|]. split; [reflexivity|]. split; [reflexivity|].
  split; [reflexivity|].
  split; [unfold Gemini.imageParts; rewrite length_map; exact Hlen|].
  unfold Gemini.imageParts. rewrite map_map. reflexivity.
Qed.

Lemma three_images_ranked_as_provider_witness :
  let run := Gemini.compareImagesQuality
               (Scenario.answering (Some Scenario.ranked))
               Scenario.threeImages in
  exists v, JSON.parse Scenario.ranked = Some v
    /\ Gemini.wellRanked 3 v
    /\ fst run = Gemini.Fulfilled v.
Proof.
  intros run.
  assert (Hparse : JSON.parse Scenario.ranked = Some
    (JSON.Obj
       [("bestImageIndex", JSON.Num 2); ("winnerReason", JSON.Str "sharpest");
        ("analyses", JSON.Arr
           [JSON.Obj [("index", JSON.Num 1); ("score", JSON.Num 70);
                      ("critique", JSON.Str "fine")];
            JSON.Obj [("index", JSON.Num 0); ("score", JSON.Num 55);
                      ("critique", JSON.Str "fine")];
            JSON.Obj [("index", JSON.Num 2); ("score", JSON.Num 91);
                      ("critique", JSON.Str "fine")]])]))
    by (vm_compute; reflexivity).
  eexists. split; [exact Hparse|].
  match goal with |- Gemini.wellRanked 3 ?v /\ _ =>
    assert (Hrank : Gemini.wellRanked 3 v)
  end.
  { unfold Gemini.wellRanked. simpl. split; [reflexivity|]. split.
    - repeat constructor; eexists; (split; [reflexivity|lia]).
    - split; [|lia].
      apply (bool_decide_unpack _). vm_compute. exact I. }
  split; [exact Hrank|].
  destruct (three_images_ranked_as_provider Gemini.parseModel
              (Gemini.wellRanked 3)
              (Scenario.answering (Some Scenario.ranked))
              Scenario.threeImages
              {| Gemini.candidates := None;
                 Gemini.response_text := Some Scenario.ranked |}
              eq_refl eq_refl)
    as (Hfst & _).
  change (fst run = Gemini.parseModel Scenario.ranked) in Hfst.
  rewrite Hfst. unfold Gemini.parseModel. rewrite Hparse. reflexivity.
Defined.

(** ** The comparator's image list *)

Section ImageListFacts.

Import QualityComparator.

(** Filtering out one position is deleting it. *)
Lemma filterIndex_from {A} (index : nat) (l : list A) : forall k,
  filterIndex (fun i => negb (i =? index)%nat) k l =
    if (index <? k)%nat then l else delete (index - k)%nat l.
Proof.
  induction l as [|x l IH]; intros k.
  - destruct (index <? k)%nat; reflexivity.
  - simpl. rewrite IH.
    destruct (Nat.eqb_spec k index) as [->|ne]; simpl.
    + destruct (Nat.ltb_spec index (S index)) as [_|]; [|lia].
      rewrite Nat.ltb_irrefl, Nat.sub_diag. reflexivity.
    + destruct (Nat.ltb_spec index (S k)), (Nat.ltb_spec index k);
        try lia; try reflexivity.
      replace (index - k)%nat with (S (index - S k)) by lia. reflexivity.
Qed.

Lemma removeImage_delete index st :
  images (removeImage index st) = delete index (images st).
Proof.
  unfold removeImage. simpl. rewrite filterIndex_from. simpl.
  rewrite Nat.sub_0_r. reflexivity.
Qed.

Lemma removeImage_length index st :
  length (images (removeImage index st)) =
    if (index <? length (images st))%nat
    then pred (length (images st)) else length (images st).
Proof.
  rewrite removeImage_delete.
  destruct (Nat.ltb_spec index (length (images st))) as [H|H].
  - rewrite length_delete by (apply lookup_lt_is_Some; exact H). lia.
  - rewrite delete_take_drop, take_ge, drop_ge by lia.
    rewrite app_nil_r. reflexivity.
Qed.

Lemma commit_length new st : (length (images (commit new st)) <= 4)%nat.
Proof. unfold commit. simpl. rewrite length_take. lia. Qed.

(** What one [onloadend] can do to the component: nothing or a commit. *)
Lemma onloadend_images nfiles file cl st :
  let cs' := onloadend nfiles file (cl, st) in
  snd cs' = st \/ snd cs' = commit (newImages (fst cs')) st.
Proof.
  unfold onloadend. destruct (readerResult file) as [s|]; [|left; reflexivity].
  cbn [processedCount].
  destruct (Nat.eqb (S (processedCount cl)) nfiles); [right|left]; reflexivity.
Qed.

Lemma onloadend_bound nfiles file cl st :
  (length (images st) <= 4)%nat ->
  (length (images (snd (onloadend nfiles file (cl, st)))) <= 4)%nat.
Proof.
  intros H. destruct (onloadend_images nfiles file cl st) as [-> | ->];
    [exact H|apply commit_length].
Qed.

Lemma loading_cons nfiles file loaded cs :
  foldl (fun cs file => onloadend nfiles file cs) cs (file :: loaded) =
  foldl (fun cs file => onloadend nfiles file cs)
        (onloadend nfiles file cs) loaded.
Proof. reflexivity. Qed.

Lemma loading_bound nfiles loaded : forall cl st,
  (length (images st) <= 4)%nat ->
  (length (images (snd (foldl (fun cs file => onloadend nfiles file cs)
                              (cl, st) loaded))) <= 4)%nat.
Proof.
  induction loaded as [|file loaded IH]; intros cl st H; [exact H|].
  rewrite loading_cons.
  pose proof (onloadend_bound nfiles file cl st H) as H'.
  destruct (onloadend nfiles file (cl, st)) as [cl' st'].
  apply IH, H'.
Qed.

Lemma accepted_all files :
  Forall (fun file => startsWith (type file) "image/" = true) files ->
  accepted files = files.
Proof.
  induction 1 as [|file files H _ IH]; [reflexivity|].
  unfold accepted in *. rewrite filter_cons.
  destruct (decide _) as [_|Hn]; [rewrite IH; reflexivity|].
  exfalso. apply Hn. rewrite H. exact I.
Qed.

Lemma accepted_idemp files : accepted (accepted files) = accepted files.
Proof.
  apply accepted_all. unfold accepted. apply Forall_forall.
  intros file Hin. apply list_elem_of_filter in Hin as [H _].
  destruct (startsWith _ _); [reflexivity|destruct H].
Qed.

Lemma processFiles_bound files loaded st :
  (length (images st) <= 4)%nat ->
  (length (images (processFiles files loaded st)) <= 4)%nat.
Proof. apply loading_bound. Qed.

(** Once [nfiles] readers have finished no later callback commits. *)
Lemma loading_after nfiles loaded : forall cl st,
  (nfiles <= processedCount cl)%nat ->
  snd (foldl (fun cs file => onloadend nfiles file cs) (cl, st) loaded) = st.
Proof.
  induction loaded as [|file loaded IH]; intros cl st H; [reflexivity|].
  rewrite loading_cons. unfold onloadend at 2.
  destruct (readerResult file) as [s|]; [|apply IH, H].
  cbn [processedCount].
  destruct (Nat.eqb_spec (S (processedCount cl)) nfiles) as [E|_]; [lia|].
  apply IH. simpl. lia.
Qed.

(** One [processFiles] call commits at most once. *)
Lemma loading_commits_once nfiles loaded : forall cl st,
  let st' := snd (foldl (fun cs file => onloadend nfiles file cs)
                        (cl, st) loaded) in
  st' = st \/ exists new, st' = commit new st.
Proof.
  induction loaded as [|file loaded IH]; intros cl st; [left; reflexivity|].
  rewrite loading_cons. unfold onloadend at 2.
  destruct (readerResult file) as [s|]; [|apply IH].
  cbn [processedCount].
  destruct (Nat.eqb_spec (S (processedCount cl)) nfiles) as [E|_];
    [|apply IH].
  right. eexists. apply loading_after. simpl. lia.
Qed.

(** While fewer than [nfiles] readers have finished, the callbacks only
    collect; the one that brings the count to [nfiles] commits. *)
Lemma loading_collects nfiles loaded : forall cl st,
  Forall (fun file => is_Some (readerResult file)) loaded ->
  (processedCount cl + length loaded < nfiles)%nat ->
  foldl (fun cs file => onloadend nfiles file cs) (cl, st) loaded =
    ({| newImages := newImages cl ++
          omap (fun file => makeImage file <$> readerResult file) loaded;
        processedCount := (processedCount cl + length loaded)%nat |}, st).
Proof.
  induction loaded as [|file loaded IH]; intros cl st Hall Hlt.
  - simpl. rewrite app_nil_r, Nat.add_0_r. destruct cl; reflexivity.
  - apply Forall_cons in Hall as [[s Hs] Hall]. simpl in Hlt.
    rewrite loading_cons. unfold onloadend at 2. rewrite Hs.
    cbn [processedCount].
    destruct (Nat.eqb_spec (S (processedCount cl)) nfiles) as [E|_]; [lia|].
    rewrite IH; [|exact Hall|simpl; lia]. simpl.
    change (omap (fun file0 => makeImage file0 <$> readerResult file0)
              (file :: loaded))
      with (match makeImage file <$> readerResult file with
            | Some y => y :: omap (fun file0 => makeImage file0 <$>
                                     readerResult file0) loaded
            | None => omap (fun file0 => makeImage file0 <$>
                              readerResult file0) loaded
            end).
    rewrite Hs. simpl. rewrite <- app_assoc. repeat f_equal. lia.
Qed.

(** An upload in which every file is an image that is read successfully:
    the list becomes the first four of the old images followed by the new
    ones in the order their readers finished. *)
Lemma processFiles_commits files loaded st :
  files <> [] ->
  length loaded = length files ->
  Forall (fun file => startsWith (type file) "image/" = true) loaded ->
  Forall (fun file => is_Some (readerResult file)) loaded ->
  images (processFiles files loaded st) =
    take 4 (images st ++
            omap (fun file => makeImage file <$> readerResult file) loaded).
Proof.
  intros Hne Hlen Himg Hall. unfold processFiles.
  rewrite (accepted_all _ Himg). clear Himg.
  destruct (exists_last (l := loaded)) as (front & file & ->).
  { intros ->. destruct files; [congruence|discriminate]. }
  rewrite length_app in Hlen. simpl in Hlen.
  apply Forall_app in Hall as [Hfront Hfile].
  apply Forall_cons in Hfile as [[s Hs] _].
  rewrite foldl_app.
  rewrite loading_collects; [|exact Hfront|simpl; lia].
  cbn [foldl]. unfold onloadend. rewrite Hs. cbn [processedCount newImages].
  destruct (Nat.eqb_spec (S (0 + length front)) (length files)) as [_|ne];
    [|lia].
  cbn [snd commit images]. rewrite omap_app.
  change (omap (fun file0 => makeImage file0 <$> readerResult file0) [file])
    with (match makeImage file <$> readerResult file with
          | Some y => [y]
          | None => []
          end).
  rewrite Hs. reflexivity.
Qed.

Lemma step_bound st a :
  (length (images st) <= 4)%nat -> (length (images (step st a)) <= 4)%nat.
Proof.
  intros H. destruct a as [files loaded|index]; cbn [step].
  - apply processFiles_bound, H.
  - rewrite removeImage_length. destruct (_ <? _)%nat; lia.
Qed.

Lemma run_bound actions : forall st,
  (length (images st) <= 4)%nat ->
  (length (images (run actions st)) <= 4)%nat.
Proof.
  unfold run. induction actions as [|a actions IH]; intros st H; [exact H|].
  simpl. apply IH, step_bound, H.
Qed.

End ImageListFacts.

(** C10.  After any sequence of uploads and removals the comparator holds
    at most four images, provided it held at most four before (initially
    it holds none).  An upload either leaves the component alone or commits
    once, and the committed list is the first four images of the old list
    followed by the newly read ones; removing position [index] deletes that
    one image and never lengthens the list. *)
Theorem image_list_at_most_four
  (actions : list QualityComparator.Action) (st : QualityComparator.State) :
  (length (QualityComparator.images st) <= 4)%nat ->
  (length (QualityComparator.images (QualityComparator.run actions st))
     <= 4)%nat
  /\ (forall files loaded,
        QualityComparator.processFiles files loaded st = st
        \/ exists newImages,
             QualityComparator.processFiles files loaded st
               = QualityComparator.commit newImages st
             /\ QualityComparator.images
                  (QualityComparator.processFiles files loaded st)
                = take 4 (QualityComparator.images st ++ newImages))
  /\ (forall index,
        QualityComparator.images (QualityComparator.removeImage index st)
          = delete index (QualityComparator.images st)
        /\ (length (QualityComparator.images
                      (QualityComparator.removeImage index st))
              <= length (QualityComparator.images st))%nat).
Proof.
  intros Hst. split; [apply run_bound, Hst|]. split.
  - intros files loaded. unfold QualityComparator.processFiles.
    destruct (loading_commits_once (length files)
                (QualityComparator.accepted loaded)
                {| QualityComparator.newImages := [];
                   QualityComparator.processedCount := O |} st)
      as [H|[new H]]; rewrite H; [left; reflexivity|].
    right. exists new. split; reflexivity.
  - intros index. split; [apply removeImage_delete|].
    rewrite removeImage_length. destruct (_ <? _)%nat; lia.
Qed.

Lemma image_list_at_most_four_witness :
  let first := [Scenario.pngFile "AAAA"; Scenario.pngFile "BBBB";
                Scenario.pngFile "CCCC"] in
  let second := [Scenario.pngFile "DDDD"; Scenario.pngFile "EEEE";
                 Scenario.pngFile "FFFF"] in
  let actions := [QualityComparator.Upload first first;
                  QualityComparator.Upload second (reverse second);
                  QualityComparator.Remove 1] in
  (length (QualityComparator.images QualityComparator.initialState) <= 4)%nat
  /\ (length (QualityComparator.images
                (QualityComparator.run actions QualityComparator.initialState))
        <= 4)%nat
  /\ map QualityComparator.data
       (QualityComparator.images
          (QualityComparator.run actions QualityComparator.initialState))
     = [Some "AAAA"; Some "CCCC"; Some "FFFF"].
Proof.
  intros first second actions.
  assert (H : (length (QualityComparator.images
                         QualityComparator.initialState) <= 4)%nat)
    by (simpl; lia).
  split; [exact H|]. split; [|reflexivity].
  exact (proj1 (image_list_at_most_four actions
                  QualityComparator.initialState H)).
Defined.

(** * Further properties *)

(** ** The Variation Generator, any provider *)

Section GeneratorMore.

Import Gemini.

Lemma firstImage_none_inv ps :
  firstImage ps = None -> Forall (fun p => imageData p = None) ps.
Proof.
  induction ps as [|p ps IH]; simpl; [constructor|].
  destruct (imageData p) eqn:E; [discriminate|]. intros H.
  constructor; [exact E|exact (IH H)].
Qed.

Lemma firstImage_payload ps d :
  firstImage ps = Some d ->
  exists before p after,
    ps = before ++ p :: after
    /\ Forall (fun q => imageData q = None) before
    /\ imageData p = Some d.
Proof.
  induction ps as [|q ps IH]; simpl; [discriminate|].
  destruct (imageData q) as [d'|] eqn:E.
  - intros [= ->]. exists [], q, ps. repeat split; auto.
  - intros H. destruct (IH H) as (before & p & after & -> & Hb & Hp).
    exists (q :: before), p, after. repeat split; auto.
Qed.

Lemma imageData_truthy p d : imageData p = Some d -> truthy d = true.
Proof.
  unfold imageData. destruct (inlineData p) as [i|]; [|discriminate].
  destruct (data i) as [d'|]; [|discriminate].
  destruct (truthy d') eqn:E; [|discriminate]. intros [= <-]. exact E.
Qed.

Lemma inspectResponse_inr r u :
  inspectResponse r = inr u ->
  exists d, firstImage (contentParts r) = Some d
            /\ u = "data:image/png;base64," +:+ d.
Proof.
  unfold inspectResponse, contentParts.
  destruct (candidates r) as [[|c cs]|]; try discriminate.
  destruct (content c) as [ct|]; try discriminate.
  destruct (parts ct) as [ps|]; try discriminate. simpl.
  destruct (firstImage ps) as [d|]; [|discriminate].
  intros [= <-]. eauto.
Qed.

Lemma tryAttempt_inl rep m : tryAttempt rep = inl m -> attemptFails rep.
Proof.
  destruct rep as [m'|r]; simpl; [auto|].
  intros H. apply firstImage_none_inv.
  destruct (firstImage (contentParts r)) as [d|] eqn:E; [|reflexivity].
  rewrite (inspectResponse_image r d E) in H. discriminate.
Qed.

Lemma attemptFails_not_inr rep u : attemptFails rep -> tryAttempt rep <> inr u.
Proof.
  intros H. rewrite (attemptFails_message rep H). discriminate.
Qed.

Variable provider : Provider.
Variables referenceImageBase64 mimeType_ prompt aspectRatio : string.
Variable enhanceQuality : bool.
Variable maxRetries : Z.

Local Abbreviation req :=
  (generationRequest referenceImageBase64 mimeType_ prompt aspectRatio
     enhanceQuality).
Local Abbreviation loop :=
  (retryLoop provider referenceImageBase64 mimeType_ prompt aspectRatio
     enhanceQuality maxRetries).
Local Abbreviation round :=
  (failedRound provider referenceImageBase64 mimeType_ prompt aspectRatio
     enhanceQuality maxRetries).

(** Failing attempts [a .. j-1] followed by a successful attempt [j]. *)
Lemma retryLoop_fail_then_succeed (j : Z) (url : string) n : forall a le tr,
  Z.to_nat (j - a) = n ->
  1 <= a <= j -> j <= maxRetries ->
  ncalls tr = Z.to_nat (a - 1) ->
  (forall m, (m < Z.to_nat (j - 1))%nat -> attemptFails (provider m req)) ->
  tryAttempt (provider (Z.to_nat (j - 1)) req) = inr url ->
  loop a le tr =
    (Some url, tr ++ flat_map round (seqZ a (j - a)) ++ [Call req]).
Proof.
  induction n as [|n IH]; intros a le tr Hn Ha Hj Hc Hfail Hok.
  - assert (a = j) as -> by lia.
    rewrite (retryLoop_success _ _ _ _ _ _ _ j le tr url); [|lia|].
    2:{ rewrite Hc. exact Hok. }
    rewrite Z.sub_diag. reflexivity.
  - rewrite (retryLoop_failure _ _ _ _ _ _ _ a le tr
               (attemptMessage provider referenceImageBase64 mimeType_
                  prompt aspectRatio enhanceQuality a)); [|lia|].
    2:{ unfold attemptMessage. rewrite Hc.
        apply attemptFails_message, Hfail. lia. }
    unfold onFailure. destruct (Z.ltb_spec a maxRetries) as [_|]; [|lia].
    rewrite IH; [|lia|lia|lia| |exact Hfail|exact Hok].
    2:{ rewrite !ncalls_app, Hc. unfold ncalls. simpl. lia. }
    rewrite (seqZ_cons a) by lia.
    replace (Z.succ a) with (a + 1) by lia.
    replace (Z.pred (j - a)) with (j - (a + 1)) by lia.
    simpl. rewrite <- !app_assoc. reflexivity.
Qed.

(** What every run of the loop adds to the trace. *)
Lemma retryLoop_shape n : forall a le tr,
  Z.to_nat (maxRetries + 1 - a) = n ->
  1 <= a ->
  exists tr',
    snd (loop a le tr) = tr ++ tr'
    /\ (ncalls tr' <= n)%nat
    /\ (a <= maxRetries -> (1 <= ncalls tr')%nat)
    /\ (fst (loop a le tr) = None -> ncalls tr' = n)
    /\ waits tr' = map backoff (seqZ a (Z.of_nat (ncalls tr') - 1))
    /\ Forall (fun e => is_call e = true -> e = Call req) tr'.
Proof.
  induction n as [|n IH]; intros a le tr Hn Ha.
  - rewrite retryLoop_exit by lia. eexists. split; [reflexivity|].
    repeat split; try (intros; reflexivity || lia || (unfold ncalls; simpl; lia)).
    repeat constructor. discriminate.
  - destruct (tryAttempt (provider (ncalls tr) req)) as [m|url] eqn:E.
    + rewrite (retryLoop_failure _ _ _ _ _ _ _ a le tr m) by (lia || exact E).
      unfold onFailure. destruct (Z.ltb_spec a maxRetries) as [Hlt|Hlt].
      * destruct (IH (a + 1) (Some m)
                    ((tr ++ [Call req]) ++ [Warn a maxRetries m]
                       ++ [Wait (backoff a)]))
          as (tr' & Hsnd & Hle & Hge & Hnone & Hw & Hall); [lia|lia|].
        rewrite app_assoc in Hsnd, Hnone.
        exists ([Call req; Warn a maxRetries m; Wait (backoff a)] ++ tr').
        split; [rewrite Hsnd, <- !app_assoc; reflexivity|].
        specialize (Hge ltac:(lia)).
        rewrite ncalls_app, waits_app.
        change (ncalls [Call req; Warn a maxRetries m; Wait (backoff a)])
          with 1%nat.
        change (waits [Call req; Warn a maxRetries m; Wait (backoff a)])
          with [backoff a].
        split; [lia|]. split; [lia|]. split; [|split].
        -- intros H. specialize (Hnone H). lia.
        -- rewrite Hw. rewrite (seqZ_cons a) by lia. simpl.
           replace (Z.succ a) with (a + 1) by lia.
           do 3 f_equal. lia.
        -- apply Forall_app. split; [|exact Hall].
           repeat constructor; discriminate.
      * destruct (IH (a + 1) (Some m)
                    ((tr ++ [Call req]) ++ [Warn a maxRetries m]))
          as (tr' & Hsnd & Hle & Hge & Hnone & Hw & Hall); [lia|lia|].
        exists ([Call req; Warn a maxRetries m] ++ tr').
        split; [rewrite Hsnd, <- !app_assoc; reflexivity|].
        assert (Hz : ncalls tr' = O) by lia.
        rewrite ncalls_app, waits_app, Hw, Hz.
        change (ncalls [Call req; Warn a maxRetries m]) with 1%nat.
        change (waits [Call req; Warn a maxRetries m]) with (@nil Z).
        split; [lia|]. split; [lia|]. split; [intros _; lia|]. split.
        -- reflexivity.
        -- apply Forall_app. split; [|exact Hall].
           repeat constructor; discriminate.
    + rewrite (retryLoop_success _ _ _ _ _ _ _ a le tr url)
        by (lia || exact E).
      exists [Call req]. split; [reflexivity|].
      change (ncalls [Call req]) with 1%nat.
      repeat split; try (intros; lia); try discriminate.
      repeat constructor.
Qed.

(** Absence is returned exactly when every attempt of the budget fails. *)
Lemma retryLoop_none_iff n : forall a le tr,
  Z.to_nat (maxRetries + 1 - a) = n ->
  fst (loop a le tr) = None <->
  (forall m, (ncalls tr <= m < ncalls tr + n)%nat ->
             attemptFails (provider m req)).
Proof.
  induction n as [|n IH]; intros a le tr Hn.
  - rewrite retryLoop_exit by lia. simpl. split; [intros _ m Hm; lia|auto].
  - destruct (tryAttempt (provider (ncalls tr) req)) as [m|url] eqn:E.
    + rewrite (retryLoop_failure _ _ _ _ _ _ _ a le tr m) by (lia || exact E).
      rewrite IH by lia.
      assert (Hc : ncalls (onFailure maxRetries a m (tr ++ [Call req]))
                   = S (ncalls tr)).
      { unfold onFailure. destruct (a <? maxRetries);
          rewrite !ncalls_app; unfold ncalls; simpl; lia. }
      rewrite Hc. split; intros H k Hk.
      * destruct (decide (k = ncalls tr)) as [->|ne].
        -- eapply tryAttempt_inl, E.
        -- apply H. lia.
      * apply H. lia.
    + rewrite (retryLoop_success _ _ _ _ _ _ _ a le tr url)
        by (lia || exact E).
      simpl. split; [discriminate|]. intros H. exfalso.
      apply (attemptFails_not_inr _ url (H (ncalls tr) ltac:(lia))), E.
Qed.

(** A returned value is a PNG data URL around a non-empty payload. *)
Lemma retryLoop_data_url n : forall a le tr u,
  Z.to_nat (maxRetries + 1 - a) = n ->
  fst (loop a le tr) = Some u ->
  exists d, u = "data:image/png;base64," +:+ d /\ truthy d = true.
Proof.
  induction n as [|n IH]; intros a le tr u Hn.
  - rewrite retryLoop_exit by lia. discriminate.
  - destruct (tryAttempt (provider (ncalls tr) req)) as [m|url] eqn:E.
    + rewrite (retryLoop_failure _ _ _ _ _ _ _ a le tr m) by (lia || exact E).
      apply IH. lia.
    + rewrite (retryLoop_success _ _ _ _ _ _ _ a le tr url)
        by (lia || exact E).
      simpl. intros [= <-].
      destruct (provider (ncalls tr) req) as [m|r]; [discriminate|].
      simpl in E. apply inspectResponse_inr in E as (d & Hd & ->).
      exists d. split; [reflexivity|].
      apply firstImage_payload in Hd as (before & p & after & _ & _ & Hp).
      eapply imageData_truthy, Hp.
Qed.

End GeneratorMore.

Lemma foldr_add_shift (l : list Z) (c : Z) :
  foldr Z.add c l = foldr Z.add 0 l + c.
Proof.
  induction l as [|x l IHl]; simpl; [reflexivity|]. rewrite IHl. ring.
Qed.

Lemma backoff_sum (m : nat) :
  foldr Z.add 0 (map Gemini.backoff (seqZ 1 (Z.of_nat m)))
  = 1000 * (2 ^ Z.of_nat m - 1).
Proof.
  induction m as [|m IH]; [reflexivity|].
  replace (Z.of_nat (S m)) with (Z.of_nat m + 1) by lia.
  rewrite seqZ_app by lia. rewrite map_app, foldr_app.
  rewrite foldr_add_shift, IH.
  change (seqZ (1 + Z.of_nat m) 1) with [1 + Z.of_nat m].
  cbn [map foldr]. unfold Gemini.backoff.
  replace (1 + Z.of_nat m - 1) with (Z.of_nat m) by lia.
  rewrite Z.pow_add_r by lia. change (2 ^ 1) with 2. ring.
Qed.

(** X1.  If attempts 1 .. j-1 fail and attempt [j] (within the budget)
    is answered with an image, the generator returns the data URL of that
    answer after exactly [j] calls, having waited 1 s, 2 s, ...,
    2^(j-2) s after the failed attempts and not at all after the last
    one; no console error is written. *)
Theorem retry_succeeds_at_attempt
  (provider : Gemini.Provider)
  (referenceImageBase64 mimeType prompt aspectRatio : string)
  (enhanceQuality : bool) (k j : Z) (r : Gemini.Response) :
  1 <= j <= k ->
  (forall m, (m < Z.to_nat (j - 1))%nat ->
     Gemini.attemptFails
       (provider m (Gemini.generationRequest referenceImageBase64 mimeType
                      prompt aspectRatio enhanceQuality))) ->
  provider (Z.to_nat (j - 1))
    (Gemini.generationRequest referenceImageBase64 mimeType prompt
       aspectRatio enhanceQuality) = Gemini.Responds r ->
  Exists Gemini.hasImage (Gemini.contentParts r) ->
  let run := Gemini.generateImageVariation provider referenceImageBase64
               mimeType prompt aspectRatio enhanceQuality k in
  exists d,
    Gemini.firstImage (Gemini.contentParts r) = Some d
    /\ fst run = Some ("data:image/png;base64," +:+ d)
    /\ snd run =
         flat_map (Gemini.failedRound provider referenceImageBase64 mimeType
                     prompt aspectRatio enhanceQuality k)
                  (seqZ 1 (j - 1))
         ++ [Gemini.Call (Gemini.generationRequest referenceImageBase64
                            mimeType prompt aspectRatio enhanceQuality)]
    /\ Gemini.ncalls (snd run) = Z.to_nat j
    /\ Gemini.waits (snd run) =
         map (fun i => 1000 * 2 ^ (i - 1)) (seqZ 1 (j - 1)).
Proof.
  intros Hj Hfail Hrep Hex run.
  assert (Hd : exists d, Gemini.firstImage (Gemini.contentParts r) = Some d).
  { destruct (Gemini.firstImage (Gemini.contentParts r)) as [d|] eqn:E;
      [eauto|].
    apply firstImage_none_inv in E. exfalso.
    apply Exists_exists in Hex as (p & Hp & [d Hd]).
    rewrite Forall_forall in E. rewrite (E p Hp) in Hd. discriminate. }
  destruct Hd as [d Hd]. exists d. split; [exact Hd|].
  assert (Hrun : run =
    (Some ("data:image/png;base64," +:+ d),
     [] ++ flat_map (Gemini.failedRound provider referenceImageBase64
                       mimeType prompt aspectRatio enhanceQuality k)
                    (seqZ 1 (j - 1))
        ++ [Gemini.Call (Gemini.generationRequest referenceImageBase64
                           mimeType prompt aspectRatio enhanceQuality)])).
  { subst run. unfold Gemini.generateImageVariation.
    apply (retryLoop_fail_then_succeed provider _ _ _ _ _ k j _
             (Z.to_nat (j - 1))); try lia; try reflexivity; try assumption.
    rewrite Hrep. simpl. apply inspectResponse_image, Hd. }
  rewrite Hrun. cbn [fst snd]. rewrite app_nil_l.
  split; [reflexivity|]. split; [reflexivity|]. split.
  - rewrite ncalls_app, ncalls_rounds, length_seqZ.
    change (Gemini.ncalls [Gemini.Call _]) with 1%nat. lia.
  - rewrite waits_app, waits_rounds.
    change (Gemini.waits [Gemini.Call _]) with (@nil Z).
    apply app_nil_r.
Qed.

Lemma retry_succeeds_at_attempt_witness :
  let run := Gemini.generateImageVariation (Scenario.twoOfFour 2) "QUJD"
               "image/png" "a red fox" "1:1" false 3 in
  1 <= 2 <= 3
  /\ fst run = Some "data:image/png;base64,CCCC"
  /\ Gemini.ncalls (snd run) = 2%nat
  /\ Gemini.waits (snd run) = [1000].
Proof.
  intros run. assert (H1 : 1 <= 2 <= 3) by lia. split; [exact H1|].
  assert (H2 : forall m, (m < Z.to_nat (2 - 1))%nat ->
            Gemini.attemptFails
              (Scenario.twoOfFour 2 m
                 (Gemini.generationRequest "QUJD" "image/png" "a red fox"
                    "1:1" false))).
  { intros [|m] Hm; [exact I|simpl in Hm; lia]. }
  assert (H3 : Exists Gemini.hasImage
            (Gemini.contentParts
               {| Gemini.candidates :=
                    Some [ {| Gemini.content :=
                      Some {| Gemini.parts :=
                        Some [ {| Gemini.text := None;
                                  Gemini.inlineData :=
                                    Some {| Gemini.mimeType := Some "image/png";
                                            Gemini.data := Some "CCCC" |} |} ] |} |} ];
                  Gemini.response_text := None |})).
  { apply Exists_cons_hd. exists "CCCC". reflexivity. }
  destruct (retry_succeeds_at_attempt (Scenario.twoOfFour 2) "QUJD"
              "image/png" "a red fox" "1:1" false 3 2 _ H1 H2 eq_refl H3)
    as (d & Hd & Hfst & _ & Hc & Hw).
  injection Hd as <-.
  split; [exact Hfst|]. split; [exact Hc|exact Hw].
Defined.

(** X2.  Whatever the provider answers and whatever [maxRetries] is, the
    generator makes at most [maxRetries] calls, every call carries the same
    request, the delays are exactly the first (calls - 1) terms of
    1 s, 2 s, 4 s, ..., and [null] is returned only when the whole budget
    of calls has been spent. *)
Theorem calls_within_budget
  (provider : Gemini.Provider)
  (referenceImageBase64 mimeType prompt aspectRatio : string)
  (enhanceQuality : bool) (maxRetries : Z) :
  let run := Gemini.generateImageVariation provider referenceImageBase64
               mimeType prompt aspectRatio enhanceQuality maxRetries in
  let calls := Gemini.ncalls (snd run) in
  (calls <= Z.to_nat maxRetries)%nat
  /\ Forall (fun e => Gemini.is_call e = true ->
                      e = Gemini.Call
                            (Gemini.generationRequest referenceImageBase64
                               mimeType prompt aspectRatio enhanceQuality))
            (snd run)
  /\ Gemini.waits (snd run) =
       map (fun i => 1000 * 2 ^ (i - 1)) (seqZ 1 (Z.of_nat calls - 1))
  /\ (fst run = None <-> calls = Z.to_nat maxRetries
                         /\ forall m, (m < calls)%nat ->
                              Gemini.attemptFails
                                (provider m
                                   (Gemini.generationRequest
                                      referenceImageBase64 mimeType prompt
                                      aspectRatio enhanceQuality))).
Proof.
  intros run calls. subst calls run. unfold Gemini.generateImageVariation.
  destruct (retryLoop_shape provider referenceImageBase64 mimeType prompt
              aspectRatio enhanceQuality maxRetries
              (Z.to_nat (maxRetries + 1 - 1)) 1 None [] eq_refl ltac:(lia))
    as (tr' & Hsnd & Hle & _ & Hnone & Hw & Hall).
  rewrite app_nil_l in Hsnd. rewrite Hsnd.
  pose proof (retryLoop_none_iff provider referenceImageBase64 mimeType
                prompt aspectRatio enhanceQuality maxRetries
                (Z.to_nat (maxRetries + 1 - 1)) 1 None [] eq_refl) as Hiff.
  change (Gemini.ncalls []) with O in Hiff.
  replace (Z.to_nat (maxRetries + 1 - 1)) with (Z.to_nat maxRetries) in *
    by (f_equal; lia).
  split; [exact Hle|]. split; [exact Hall|]. split; [exact Hw|].
  split.
  - intros H. pose proof (Hnone H) as Hc. split; [exact Hc|].
    intros m Hm. apply Hiff; [exact H|lia].
  - intros [Hc Hf]. apply Hiff. intros m Hm. apply Hf. lia.
Qed.

(** X3.  The generator returns a value only of the form
    [data:image/png;base64,<payload>] with a non-empty payload: never an
    empty string, and never with the mime type the provider declared. *)
Theorem result_is_png_data_url
  (provider : Gemini.Provider)
  (referenceImageBase64 mimeType prompt aspectRatio : string)
  (enhanceQuality : bool) (maxRetries : Z) (u : string) :
  fst (Gemini.generateImageVariation provider referenceImageBase64 mimeType
         prompt aspectRatio enhanceQuality maxRetries) = Some u ->
  exists d, u = "data:image/png;base64," +:+ d /\ d <> "".
Proof.
  intros H. unfold Gemini.generateImageVariation in H.
  destruct (retryLoop_data_url provider referenceImageBase64 mimeType prompt
              aspectRatio enhanceQuality maxRetries
              (Z.to_nat (maxRetries + 1 - 1)) 1 None [] u eq_refl H)
    as (d & -> & Hd).
  exists d. split; [reflexivity|]. intros ->. discriminate.
Qed.

Lemma result_is_png_data_url_witness :
  exists d, "data:image/png;base64,CCCC" = "data:image/png;base64," +:+ d
            /\ d <> "".
Proof.
  exact (result_is_png_data_url (Scenario.twoOfFour 2) "QUJD" "image/png"
           "a red fox" "1:1" false 3 "data:image/png;base64,CCCC" eq_refl).
Defined.

(** X4.  With [maxRetries >= 1] the generator spends at most
    1000 * (2^(maxRetries-1) - 1) ms waiting, whatever the provider does
    (3 s with the default budget of three); after [c] calls the time
    waited is exactly 1000 * (2^(c-1) - 1) ms. *)
Theorem total_backoff_bound
  (provider : Gemini.Provider)
  (referenceImageBase64 mimeType prompt aspectRatio : string)
  (enhanceQuality : bool) (maxRetries : Z) :
  1 <= maxRetries ->
  let run := Gemini.generateImageVariation provider referenceImageBase64
               mimeType prompt aspectRatio enhanceQuality maxRetries in
  let calls := Z.of_nat (Gemini.ncalls (snd run)) in
  1 <= calls <= maxRetries
  /\ Gemini.totalWait (snd run) = 1000 * (2 ^ (calls - 1) - 1)
  /\ Gemini.totalWait (snd run) <= 1000 * (2 ^ (maxRetries - 1) - 1).
Proof.
  intros Hk run calls. subst calls run.
  unfold Gemini.generateImageVariation.
  destruct (retryLoop_shape provider referenceImageBase64 mimeType prompt
              aspectRatio enhanceQuality maxRetries
              (Z.to_nat (maxRetries + 1 - 1)) 1 None [] eq_refl ltac:(lia))
    as (tr' & Hsnd & Hle & Hge & _ & Hw & _).
  rewrite app_nil_l in Hsnd. rewrite Hsnd.
  specialize (Hge Hk).
  assert (Hc : 1 <= Z.of_nat (Gemini.ncalls tr') <= maxRetries) by lia.
  split; [exact Hc|].
  assert (Ht : Gemini.totalWait tr' =
               1000 * (2 ^ (Z.of_nat (Gemini.ncalls tr') - 1) - 1)).
  { unfold Gemini.totalWait. rewrite Hw.
    replace (Z.of_nat (Gemini.ncalls tr') - 1)
      with (Z.of_nat (Gemini.ncalls tr' - 1)) by lia.
    apply backoff_sum. }
  split; [exact Ht|]. rewrite Ht.
  assert (2 ^ (Z.of_nat (Gemini.ncalls tr') - 1) <= 2 ^ (maxRetries - 1))
    by (apply Z.pow_le_mono_r; lia).
  lia.
Qed.

Lemma total_backoff_bound_witness :
  let run := Gemini.generateImageVariation Scenario.allFail_provider "QUJD"
               "image/png" "a red fox" "1:1" false 3 in
  1 <= 3
  /\ Gemini.totalWait (snd run) = 3000
  /\ Gemini.totalWait (snd run) <= 1000 * (2 ^ (3 - 1) - 1).
Proof.
  intros run. assert (H : 1 <= 3) by lia. split; [exact H|].
  destruct (total_backoff_bound Scenario.allFail_provider "QUJD" "image/png"
              "a red fox" "1:1" false 3 H) as (_ & Ht & Hb).
  split; [exact Ht|exact Hb].
Defined.

(** X5.  A response yields an image exactly when some part of its first
    candidate carries non-empty inline data; the value is built from the
    first such part, text parts and parts with an empty payload before it
    being skipped, and the candidates after the first are never looked
    at. *)
Theorem image_found_iff_first_candidate_has_payload
  (r : Gemini.Response) (u : string) :
  (Gemini.inspectResponse r = inr u <->
   exists before p after i d,
     Gemini.contentParts r = before ++ p :: after
     /\ Forall (fun q => ~ Gemini.hasImage q) before
     /\ Gemini.inlineData p = Some i /\ Gemini.data i = Some d /\ d <> ""
     /\ u = "data:image/png;base64," +:+ d)
  /\ (forall c cs t,
        Gemini.inspectResponse
          {| Gemini.candidates := Some (c :: cs); Gemini.response_text := t |}
        = Gemini.inspectResponse
            {| Gemini.candidates := Some [c]; Gemini.response_text := None |}).
Proof.
  split; [|reflexivity]. split.
  - intros H. apply inspectResponse_inr in H as (d & Hd & ->).
    apply firstImage_payload in Hd as (before & p & after & Hparts & Hb & Hp).
    pose proof (imageData_truthy p d Hp) as Ht.
    unfold Gemini.imageData in Hp.
    destruct (Gemini.inlineData p) as [i|] eqn:Ei; [|discriminate].
    destruct (Gemini.data i) as [d'|] eqn:Ed; [|discriminate].
    destruct (truthy d'); [|discriminate]. injection Hp as ->.
    exists before, p, after, i, d. repeat split; auto.
    + eapply Forall_impl; [exact Hb|]. intros q Hq [x Hx]. congruence.
    + intros ->. discriminate.
  - intros (before & p & after & i & d & Hparts & Hb & Hi & Hd & Hne & ->).
    apply inspectResponse_image. rewrite Hparts.
    apply firstImage_first.
    + eapply Forall_impl; [exact Hb|]. intros q Hq.
      destruct (Gemini.imageData q) eqn:E; [|reflexivity].
      exfalso. apply Hq. eexists. exact E.
    + unfold Gemini.imageData. rewrite Hi, Hd.
      destruct d; [congruence|reflexivity].
Qed.

(** ** The Batch Orchestrator, further *)

Section BatchMore.

Import App.

Variable providers : nat -> Gemini.Provider.
Variable ref : RefImage.
Variable st0 : State.

Local Abbreviation produced := (App.produced providers ref st0).
Local Abbreviation afterVariation := (App.afterVariation providers ref st0).
Local Abbreviation settleAll := (App.settleAll providers ref st0).
Local Abbreviation wins := (App.wins providers ref st0).

(** Settling invocations never touches the inputs of the batch. *)
Lemma settleAll_inputs sched : forall r,
  let r' := settleAll sched r in
  refImage (current r') = refImage (current r)
  /\ promptText (current r') = promptText (current r)
  /\ ratio (current r') = ratio (current r)
  /\ enhanceQuality (current r') = enhanceQuality (current r).
Proof.
  induction sched as [|c sched IH]; intros r; [repeat split|].
  unfold App.settleAll in *. cbn [foldl].
  destruct (IH (afterVariation c r)) as (H1 & H2 & H3 & H4).
  cbv zeta. rewrite H1, H2, H3, H4.
  rewrite afterVariation_produced. destruct (produced c); repeat split.
Qed.

Lemma wins_le sched : (wins sched <= length sched)%nat.
Proof. unfold App.wins. apply length_filter. Qed.

Lemma produced_fields c g :
  produced c = Some g ->
  id g = pretty (idClock c) +:+ pretty (who c)
  /\ App.variation providers ref st0 (who c) = Some (url g)
  /\ prompt g = promptText st0
  /\ aspectRatio g = ratio st0
  /\ createdAt g = createdClock c
  /\ enhanced g = enhanceQuality st0.
Proof.
  unfold App.produced.
  destruct (App.variation providers ref st0 (who c)) as [u|];
    [|discriminate].
  intros [= <-]. repeat split.
Qed.

End BatchMore.

Lemma lastChar_snoc (s : string) (c : Ascii.ascii) :
  lastChar (s +:+ String c EmptyString) = Some c.
Proof.
  induction s as [|a s IH]; [reflexivity|].
  change (String a s +:+ String c EmptyString)
    with (String a (s +:+ String c EmptyString)).
  cbn [lastChar]. rewrite IH. reflexivity.
Qed.

Lemma pretty_small_index (i : nat) :
  (i < 4)%nat ->
  pretty i = String (Ascii.ascii_of_nat (48 + i)) EmptyString.
Proof.
  intros H. destruct i as [|[|[|[|i]]]]; try lia; vm_compute; reflexivity.
Qed.

(** X6.  While invocations are still settling (after any number of
    completions, in any order) no image is shown: the results stay empty
    and the component stays in the generating state without error, its
    counter equal to the number of images produced so far; the reference
    image, instruction, ratio and enhancement flag are not touched. *)
Theorem results_hidden_until_all_settle
  (providers : nat -> Gemini.Provider) (ref : App.RefImage) (st : App.State)
  (sched : list App.Completion) :
  let r := App.settleAll providers ref st sched (App.launch st) in
  App.results (App.current r) = []
  /\ App.genState (App.current r) =
       {| App.isGenerating := true;
          App.progress := Z.of_nat (App.wins providers ref st sched);
          App.error := None |}
  /\ (App.wins providers ref st sched <= length sched)%nat
  /\ App.refImage (App.current r) = App.refImage st
  /\ App.promptText (App.current r) = App.promptText st
  /\ App.ratio (App.current r) = App.ratio st
  /\ App.enhanceQuality (App.current r) = App.enhanceQuality st.
Proof.
  intros r. subst r.
  split; [rewrite settleAll_results; reflexivity|].
  split; [rewrite settleAll_genState, iter_increment; reflexivity|].
  split; [apply wins_le|].
  apply (settleAll_inputs providers ref st sched (App.launch st)).
Qed.

(** X7.  A batch starts from scratch: what [handleGenerate] leaves behind
    does not depend on the results, progress or error of an earlier batch,
    which are discarded and never merged. *)
Theorem batch_replaces_previous
  (providers : nat -> Gemini.Provider) (sched : list App.Completion)
  (st : App.State) (ref : App.RefImage)
  (earlier : list App.GeneratedImage) (g : App.GenerationState) :
  App.refImage st = Some ref ->
  truthy (App.promptText st) = true ->
  let run := App.handleGenerate providers sched st in
  let run' := App.handleGenerate providers sched
                (App.setGenState (fun _ => g) (App.setResults earlier st)) in
  run' = run.
Proof.
  intros Href Hprompt run run'. subst run run'. unfold App.handleGenerate.
  cbn [App.refImage App.promptText App.setGenState App.setResults].
  rewrite Href, Hprompt. reflexivity.
Qed.

Lemma batch_replaces_previous_witness :
  let stale :=
    App.setGenState
      (fun _ => {| App.isGenerating := false; App.progress := 4;
                   App.error := Some "old error" |})
      (App.setResults
         [ {| App.id := "990"; App.url := "data:image/png;base64,OLD";
              App.prompt := "older"; App.aspectRatio := "16:9";
              App.createdAt := 99; App.enhanced := true |} ]
         Scenario.readyState) in
  App.handleGenerate Scenario.allFail Scenario.someSchedule stale
  = App.handleGenerate Scenario.allFail Scenario.someSchedule
      Scenario.readyState
  /\ App.results
       (App.current
          (App.handleGenerate Scenario.allFail Scenario.someSchedule stale))
     = [].
Proof.
  intros stale. split; [|reflexivity].
  exact (batch_replaces_previous Scenario.allFail Scenario.someSchedule
           Scenario.readyState Scenario.refImage _ _ eq_refl eq_refl).
Defined.

Lemma results_from_completions providers sched st ref g :
  App.refImage st = Some ref ->
  truthy (App.promptText st) = true ->
  App.completeSchedule sched ->
  g ∈ App.results (App.current (App.handleGenerate providers sched st)) ->
  exists c, c ∈ sched /\ (App.who c < 4)%nat
            /\ App.produced providers ref st c = Some g.
Proof.
  intros Href Hprompt Hsched Hg.
  destruct (batch_profile providers sched st ref Href Hprompt Hsched)
    as (_ & _ & Hres & _).
  rewrite Hres in Hg. apply list_elem_of_omap in Hg as (i & Hi & Hslot).
  destruct (App.completionOf sched i) as [c|] eqn:Hc; [|discriminate].
  simpl in Hslot. exists c. split; [|split; [|exact Hslot]].
  - unfold App.completionOf in Hc. apply find_some in Hc as [Hin _].
    apply list_elem_of_In, Hin.
  - apply completionOf_who in Hc. rewrite Hc.
    apply elem_of_seq in Hi. lia.
Qed.

(** X8.  Every image of a finished batch records the instruction, aspect
    ratio and enhancement flag the batch was started with, a PNG data URL
    with a non-empty payload, and an id and creation time read from the
    clock when its own invocation settled. *)
Theorem results_carry_batch_settings
  (providers : nat -> Gemini.Provider) (sched : list App.Completion)
  (st : App.State) (ref : App.RefImage) :
  App.refImage st = Some ref ->
  truthy (App.promptText st) = true ->
  App.completeSchedule sched ->
  Forall (fun g =>
            App.prompt g = App.promptText st
            /\ App.aspectRatio g = App.ratio st
            /\ App.enhanced g = App.enhanceQuality st
            /\ (exists d, App.url g = "data:image/png;base64," +:+ d
                          /\ d <> "")
            /\ exists c, c ∈ sched
                 /\ App.createdAt g = App.createdClock c
                 /\ App.id g = pretty (App.idClock c) +:+ pretty (App.who c))
         (App.results (App.current (App.handleGenerate providers sched st))).
Proof.
  intros Href Hprompt Hsched. apply Forall_forall. intros g Hg.
  destruct (results_from_completions providers sched st ref g Href Hprompt
              Hsched Hg) as (c & Hc & _ & Hp).
  destruct (produced_fields providers ref st c g Hp)
    as (Hid & Hvar & Hpr & Har & Hcr & Hen).
  split; [exact Hpr|]. split; [exact Har|]. split; [exact Hen|]. split.
  - unfold App.variation, Gemini.generateImageVariation in Hvar.
    destruct (retryLoop_data_url _ _ _ _ _ _ _ (Z.to_nat (3 + 1 - 1))
                1 None [] (App.url g) eq_refl Hvar) as (d & Hd & Ht).
    exists d. split; [exact Hd|]. intros ->. discriminate.
  - exists c. auto.
Qed.

Lemma results_carry_batch_settings_witness :
  Forall (fun g => App.prompt g = "a red fox" /\ App.aspectRatio g = "1:1"
                   /\ App.enhanced g = false)
         (App.results
            (App.current
               (App.handleGenerate Scenario.twoOfFour Scenario.someSchedule
                  Scenario.readyState))).
Proof.
  eapply Forall_impl;
    [exact (results_carry_batch_settings Scenario.twoOfFour
              Scenario.someSchedule Scenario.readyState Scenario.refImage
              eq_refl eq_refl someSchedule_complete)|].
  intros g (H1 & H2 & H3 & _). auto.
Defined.

Lemma index_digit_inj (i j : nat) :
  (i < 4)%nat -> (j < 4)%nat ->
  Ascii.ascii_of_nat (48 + i) = Ascii.ascii_of_nat (48 + j) -> i = j.
Proof.
  intros Hi Hj H.
  destruct i as [|[|[|[|i]]]]; try lia;
    destruct j as [|[|[|[|j]]]]; try lia; try reflexivity; discriminate.
Qed.

Lemma produced_lastChar providers ref st c g :
  (App.who c < 4)%nat ->
  App.produced providers ref st c = Some g ->
  lastChar (App.id g) = Some (Ascii.ascii_of_nat (48 + App.who c)).
Proof.
  intros Hw Hp.
  destruct (produced_fields providers ref st c g Hp) as (-> & _).
  rewrite (pretty_small_index (App.who c) Hw). apply lastChar_snoc.
Qed.

Lemma slots_ids_distinct providers ref st sched (l : list nat) :
  NoDup l -> Forall (fun i => (i < 4)%nat) l ->
  NoDup (map (fun g => lastChar (App.id g))
             (omap (App.slot providers ref st sched) l)).
Proof.
  induction 1 as [|i l Hi Hnd IH]; intros Hall; [constructor|].
  apply Forall_cons in Hall as [Hi4 Hall].
  change (omap (App.slot providers ref st sched) (i :: l)) with
    (match App.slot providers ref st sched i with
     | Some g => g :: omap (App.slot providers ref st sched) l
     | None => omap (App.slot providers ref st sched) l
     end).
  destruct (App.slot providers ref st sched i) as [g|] eqn:Hs; [|auto].
  rewrite map_cons. apply NoDup_cons. split; [|auto].
  intros Hin. apply list_elem_of_fmap in Hin as (g' & Heq & Hg').
  apply list_elem_of_omap in Hg' as (j & Hj & Hs').
  unfold App.slot in Hs, Hs'.
  destruct (App.completionOf sched i) as [c|] eqn:Hc; [|discriminate].
  destruct (App.completionOf sched j) as [c'|] eqn:Hc'; [|discriminate].
  simpl in Hs, Hs'.
  pose proof (completionOf_who _ _ _ Hc) as Hwi.
  pose proof (completionOf_who _ _ _ Hc') as Hwj.
  rewrite Forall_forall in Hall. pose proof (Hall j Hj) as Hj4.
  rewrite (produced_lastChar providers ref st c g) in Heq
    by (rewrite ?Hwi; assumption).
  rewrite (produced_lastChar providers ref st c' g') in Heq
    by (rewrite ?Hwj; assumption).
  injection Heq as Heq. rewrite Hwi, Hwj in Heq.
  apply index_digit_inj in Heq; [|assumption|assumption].
  subst j. contradiction.
Qed.

(** X9.  The images of a finished batch have pairwise different ids,
    whatever the clock readings were (even all equal): an id ends with the
    digit of its invocation. *)
Theorem result_ids_distinct
  (providers : nat -> Gemini.Provider) (sched : list App.Completion)
  (st : App.State) (ref : App.RefImage) :
  App.refImage st = Some ref ->
  truthy (App.promptText st) = true ->
  App.completeSchedule sched ->
  NoDup (map App.id
           (App.results (App.current (App.handleGenerate providers sched st)))).
Proof.
  intros Href Hprompt Hsched.
  destruct (batch_profile providers sched st ref Href Hprompt Hsched)
    as (_ & _ & Hres & _).
  rewrite Hres.
  apply (NoDup_fmap_1 lastChar). rewrite <- list_fmap_compose.
  apply (slots_ids_distinct providers ref st sched (seq 0 4)).
  - apply NoDup_seq.
  - apply Forall_forall. intros i Hi. apply elem_of_seq in Hi. lia.
Qed.

Lemma result_ids_distinct_witness :
  let sameInstant :=
    map (fun i => {| App.who := i; App.idClock := 1700;
                     App.createdClock := 1700 |}) [3; 2; 1; 0]%nat in
  map App.id
    (App.results
       (App.current
          (App.handleGenerate Scenario.twoOfFour sameInstant
             Scenario.readyState)))
  = ["17000"; "17002"]
  /\ NoDup (map App.id
              (App.results
                 (App.current
                    (App.handleGenerate Scenario.twoOfFour sameInstant
                       Scenario.readyState)))).
Proof.
  intros sameInstant. split; [reflexivity|].
  apply (result_ids_distinct Scenario.twoOfFour sameInstant
           Scenario.readyState Scenario.refImage eq_refl eq_refl).
  unfold App.completeSchedule.
  apply (bool_decide_unpack _). vm_compute. exact I.
Defined.

(** X10.  [handleGenerate] does nothing at all (no state stored, state
    left as it was) exactly when the reference image or the instruction is
    missing; otherwise it stores the reset state first and clears the
    results. *)
Theorem handleGenerate_needs_inputs
  (providers : nat -> Gemini.Provider) (sched : list App.Completion)
  (st : App.State) :
  let run := App.handleGenerate providers sched st in
  (App.history run = [] <->
     App.refImage st = None \/ App.promptText st = "")
  /\ (App.refImage st = None \/ App.promptText st = "" ->
        App.current run = st)
  /\ (App.history run <> [] ->
        head (App.history run) =
          Some {| App.isGenerating := true; App.progress := 0;
                  App.error := None |}).
Proof.
  intros run. subst run. unfold App.handleGenerate.
  destruct (App.refImage st) as [ref|] eqn:Href.
  2:{ repeat split; auto. intros H. contradiction. }
  destruct (App.promptText st) as [|a s] eqn:Hp; cbn [truthy].
  { repeat split; auto. intros H. contradiction. }
  assert (Hhist : exists rest,
            App.history (App.afterAll
               (App.settleAll providers ref st sched (App.launch st)))
            = {| App.isGenerating := true; App.progress := 0;
                 App.error := None |} :: rest).
  { unfold App.afterAll.
    destruct (_ =? 0)%nat; unfold App.doSetGenState, App.doSetResults;
      cbn [App.history App.current]; rewrite settleAll_history;
      eexists; reflexivity. }
  destruct Hhist as [rest Hhist]. rewrite Hhist.
  split; [|split].
  - split; [discriminate|]. intros [H|H]; discriminate.
  - intros [H|H]; discriminate.
  - reflexivity.
Qed.

(** X11.  For every finished batch with [s] successful invocations the
    progress values stored are 0, 1, ..., [s] and then a closing value,
    0 when [s = 0] and 4 otherwise: the counter starts at 0, never
    decreases, stays within [0, 4], and equals the number of successes at
    the moment the last invocation has settled. *)
Theorem progress_counter_profile
  (providers : nat -> Gemini.Provider) (sched : list App.Completion)
  (st : App.State) (ref : App.RefImage) :
  App.refImage st = Some ref ->
  truthy (App.promptText st) = true ->
  App.completeSchedule sched ->
  let s := App.successes providers ref st in
  let seen := App.progressSeen (App.handleGenerate providers sched st) in
  seen = map Z.of_nat (seq 0 (S s)) ++ [if (s =? 0)%nat then 0 else 4]
  /\ head seen = Some 0
  /\ StronglySorted Z.le seen
  /\ Forall (fun p => 0 <= p <= 4) seen
  /\ seen !! s = Some (Z.of_nat s).
Proof.
  intros Href Hprompt Hsched s seen.
  destruct (progress_profile providers sched st ref Href Hprompt Hsched)
    as [Hseen Hle].
  fold s in Hseen, Hle. fold seen in Hseen.
  split; [exact Hseen|]. rewrite Hseen. clear Hseen.
  destruct s as [|[|[|[|[|s]]]]]; [..|lia]; cbn;
    (split; [reflexivity|]); (split; [|split; [|reflexivity]]);
    repeat constructor; lia.
Qed.

Lemma progress_counter_profile_witness :
  App.progressSeen
    (App.handleGenerate Scenario.twoOfFour Scenario.someSchedule
       Scenario.readyState)
  = [0; 1; 2; 4]
  /\ App.progressSeen
       (App.handleGenerate Scenario.allFail Scenario.someSchedule
          Scenario.readyState)
     = [0; 0].
Proof.
  split.
  - exact (proj1 (progress_counter_profile Scenario.twoOfFour
                    Scenario.someSchedule Scenario.readyState
                    Scenario.refImage eq_refl eq_refl
                    someSchedule_complete)).
  - exact (proj1 (progress_counter_profile Scenario.allFail
                    Scenario.someSchedule Scenario.readyState
                    Scenario.refImage eq_refl eq_refl
                    someSchedule_complete)).
Defined.

(** ** Data URLs *)

Lemma contains_append c (a b : string) :
  contains c (a +:+ b) = contains c a || contains c b.
Proof.
  induction a as [|x a IH]; [reflexivity|].
  change (String x a +:+ b) with (String x (a +:+ b)).
  cbn [contains]. rewrite IH. apply orb_assoc.
Qed.

Lemma split_no_separator c (s : string) :
  contains c s = false -> QualityComparator.split c s = [s].
Proof.
  induction s as [|x s IH]; [reflexivity|].
  cbn [contains QualityComparator.split]. intros H.
  apply orb_false_elim in H as [Hx Hs]. rewrite Hx, (IH Hs). reflexivity.
Qed.

Lemma split_at_separator c (a b : string) :
  contains c a = false ->
  QualityComparator.split c (a +:+ String c b)
  = a :: QualityComparator.split c b.
Proof.
  induction a as [|x a IH]; intros H.
  - change (EmptyString +:+ String c b) with (String c b).
    cbn [QualityComparator.split]. rewrite Ascii.eqb_refl. reflexivity.
  - cbn [contains] in H. apply orb_false_elim in H as [Hx Ha].
    change (String x a +:+ String c b) with (String x (a +:+ String c b)).
    cbn [QualityComparator.split]. rewrite Hx, (IH Ha). reflexivity.
Qed.

(** The second piece of a data URL is its payload. *)
Lemma dataUrl_payload (type payload : string) :
  contains "," type = false ->
  contains "," payload = false ->
  QualityComparator.split "," (dataUrl type payload) !! 1%nat = Some payload.
Proof.
  intros Ht Hp. unfold dataUrl.
  change (";base64," +:+ payload) with (";base64" +:+ String "," payload).
  assert (E : "data:" +:+ type +:+ ";base64" +:+ String "," payload
              = ("data:" +:+ type +:+ ";base64") +:+ String "," payload).
  { change ("data:" +:+ type +:+ ";base64" +:+ String "," payload)
      with ("data:" +:+ (type +:+ (";base64" +:+ String "," payload))).
    change (("data:" +:+ type +:+ ";base64") +:+ String "," payload)
      with ("data:" +:+ ((type +:+ ";base64") +:+ String "," payload)).
    f_equal. induction type as [|x t IH]; [reflexivity|].
    change (String x t +:+ ?s) with (String x (t +:+ s)).
    cbn [contains] in Ht. apply orb_false_elim in Ht as [_ Ht].
    rewrite (IH Ht). reflexivity. }
  rewrite E, split_at_separator.
  - rewrite (split_no_separator _ _ Hp). reflexivity.
  - rewrite !contains_append, Ht. reflexivity.
Qed.

(** X12.  Picking a reference image: for an image file whose reader yields
    the data URL of its type and payload (neither containing a comma),
    [onImageSelect] receives exactly the payload and the type, and the
    preview [handleImageSelect] stores is the reader's data URL again. *)
Theorem reference_image_round_trip
  (type payload : string) (st : App.State) :
  startsWith type "image/" = true ->
  contains "," type = false ->
  contains "," payload = false ->
  ImageUploader.processFile
    {| QualityComparator.type := type;
       QualityComparator.readerResult := Some (dataUrl type payload) |}
  = Some (Some payload, type)
  /\ App.refImage (App.handleImageSelect payload type st)
     = Some {| App.data := payload; App.mime := type;
               App.preview := dataUrl type payload |}.
Proof.
  intros Himg Ht Hp. split; [|reflexivity].
  unfold ImageUploader.processFile.
  cbn [QualityComparator.type QualityComparator.readerResult].
  rewrite Himg, dataUrl_payload by assumption. reflexivity.
Qed.

Lemma reference_image_round_trip_witness :
  ImageUploader.processFile (Scenario.pngFile "QUJD")
  = Some (Some "QUJD", "image/png")
  /\ App.preview
       <$> App.refImage (App.handleImageSelect "QUJD" "image/png"
                           App.initialState)
     = Some "data:image/png;base64,QUJD".
Proof.
  destruct (reference_image_round_trip "image/png" "QUJD" App.initialState
              eq_refl eq_refl eq_refl) as [H1 H2].
  split; [exact H1|]. rewrite H2. reflexivity.
Defined.

(** ** Uploads to the comparator *)

Section UploadFacts.

Import QualityComparator.

(** The callbacks of one [processFiles] call count at most the readers
    that finished with a result. *)
Lemma loading_count nfiles loaded : forall cl st,
  (processedCount cl +
   length (filter (fun file => is_Some (readerResult file)) loaded)
   < nfiles)%nat ->
  snd (foldl (fun cs file => onloadend nfiles file cs) (cl, st) loaded) = st.
Proof.
  induction loaded as [|file loaded IH]; intros cl st H; [reflexivity|].
  rewrite loading_cons. rewrite filter_cons in H. unfold onloadend at 2.
  destruct (readerResult file) as [s|] eqn:Hs.
  - destruct (decide (is_Some (Some s))) as [_|Hn];
      [|exfalso; apply Hn; eauto].
    cbn [length] in H. cbn [processedCount].
    destruct (Nat.eqb_spec (S (processedCount cl)) nfiles) as [E|_]; [lia|].
    apply IH. cbn [processedCount]. lia.
  - destruct (decide (is_Some (@None string))) as [[x Hx]|_];
      [discriminate|].
    apply IH. exact H.
Qed.

Lemma processFiles_whole files loaded st :
  files <> [] ->
  length loaded = length files ->
  Forall (fun file => startsWith (type file) "image/" = true) loaded ->
  Forall (fun file => is_Some (readerResult file)) loaded ->
  processFiles files loaded st =
    commit (omap (fun file => makeImage file <$> readerResult file) loaded) st.
Proof.
  intros Hne Hlen Himg Hall. unfold processFiles.
  rewrite (accepted_all _ Himg). clear Himg.
  destruct (exists_last (l := loaded)) as (front & file & ->).
  { intros ->. destruct files; [congruence|discriminate]. }
  rewrite length_app in Hlen. simpl in Hlen.
  apply Forall_app in Hall as [Hfront Hfile].
  apply Forall_cons in Hfile as [[s Hs] _].
  rewrite foldl_app.
  rewrite loading_collects; [|exact Hfront|simpl; lia].
  cbn [foldl]. unfold onloadend. rewrite Hs. cbn [processedCount newImages].
  destruct (Nat.eqb_spec (S (0 + length front)) (length files)) as [_|ne];
    [|lia].
  cbn [snd]. rewrite omap_app.
  change (omap (fun file0 => makeImage file0 <$> readerResult file0) [file])
    with (match makeImage file <$> readerResult file with
          | Some y => [y]
          | None => []
          end).
  rewrite Hs. reflexivity.
Qed.

End UploadFacts.



(** X14.  If one of the selected files is not an image, or one read
    fails, the whole upload is dropped: the readers of the other files
    finish, but the component state is left exactly as it was. *)
Theorem upload_with_rejected_file_is_dropped
  (files loaded : list QualityComparator.File) (st : QualityComparator.State) :
  loaded ≡ₚ QualityComparator.accepted files ->
  Exists (fun file =>
            startsWith (QualityComparator.type file) "image/" = false
            \/ QualityComparator.readerResult file = None) files ->
  QualityComparator.processFiles files loaded st = st.
Proof.
  intros Hperm Hbad. unfold QualityComparator.processFiles.
  apply loading_count. cbn [QualityComparator.processedCount].
  assert (Hacc : QualityComparator.accepted loaded
                 ≡ₚ QualityComparator.accepted files).
  { rewrite <- (accepted_idemp files). unfold QualityComparator.accepted.
    rewrite Hperm. reflexivity. }
  rewrite Hacc.
  unfold QualityComparator.accepted.
  rewrite list_filter_filter.
  apply Exists_exists in Hbad as (file & Hin & Hfile).
  apply (length_filter_lt _ _ file); [exact Hin|].
  intros [[x Hx] Himg]. destruct Hfile as [H|H].
  - rewrite H in Himg. exact Himg.
  - rewrite H in Hx. discriminate.
Qed.

Lemma upload_with_rejected_file_is_dropped_witness :
  let files := [Scenario.pngFile "AAAA";
                {| QualityComparator.type := "text/plain";
                   QualityComparator.readerResult :=
                     Some "data:text/plain;base64,aGk=" |};
                Scenario.pngFile "CCCC"] in
  QualityComparator.processFiles files
    [Scenario.pngFile "CCCC"; Scenario.pngFile "AAAA"]
    QualityComparator.initialState
  = QualityComparator.initialState.
Proof.
  intros files.
  apply (upload_with_rejected_file_is_dropped files).
  - unfold QualityComparator.accepted.
    change (filter _ files) with
      [Scenario.pngFile "AAAA"; Scenario.pngFile "CCCC"].
    apply Permutation_swap.
  - apply Exists_cons_tl, Exists_cons_hd. left. reflexivity.
Defined.

(** X15.  An upload never displaces what is already listed: the old
    images stay at the front in their order, and at most as many new ones
    are added as there are free places among the four. *)
Theorem upload_keeps_existing_images
  (files loaded : list QualityComparator.File) (st : QualityComparator.State) :
  (length (QualityComparator.images st) <= 4)%nat ->
  let l' := QualityComparator.images
              (QualityComparator.processFiles files loaded st) in
  QualityComparator.images st `prefix_of` l'
  /\ (length l' - length (QualityComparator.images st)
      <= 4 - length (QualityComparator.images st))%nat.
Proof.
  intros Hlen l'. subst l'. unfold QualityComparator.processFiles.
  destruct (loading_commits_once (length files)
              (QualityComparator.accepted loaded)
              {| QualityComparator.newImages := [];
                 QualityComparator.processedCount := O |} st)
    as [H|[new H]]; rewrite H.
  - split; [reflexivity|lia].
  - cbn [QualityComparator.commit QualityComparator.images]. split.
    + rewrite take_app_ge by lia.
      apply prefix_app_r. reflexivity.
    + rewrite length_take. lia.
Qed.

Lemma upload_keeps_existing_images_witness :
  let first := [Scenario.pngFile "AAAA"; Scenario.pngFile "BBBB";
                Scenario.pngFile "CCCC"] in
  let second := [Scenario.pngFile "DDDD"; Scenario.pngFile "EEEE"] in
  let st := QualityComparator.processFiles first first
              QualityComparator.initialState in
  map QualityComparator.data
    (QualityComparator.images
       (QualityComparator.processFiles second second st))
  = [Some "AAAA"; Some "BBBB"; Some "CCCC"; Some "DDDD"]
  /\ QualityComparator.images st `prefix_of`
       QualityComparator.images
         (QualityComparator.processFiles second second st).
Proof.
  intros first second st. split; [reflexivity|].
  assert (H : (length (QualityComparator.images st) <= 4)%nat)
    by (vm_compute; lia).
  exact (proj1 (upload_keeps_existing_images second second st H)).
Defined.

(** ** Comparing and showing the verdict *)

Section CompareFacts.

Import QualityComparator.

Lemma toInputs_length l inputs :
  toInputs l = Some inputs -> length inputs = length l.
Proof.
  revert inputs. induction l as [|img l IH]; intros inputs.
  - intros [= <-]. reflexivity.
  - cbn [toInputs]. destruct (toInput img); [|discriminate].
    destruct (toInputs l) as [rest|]; [|discriminate].
    intros [= <-]. cbn [length]. rewrite (IH rest eq_refl). reflexivity.
Qed.

Lemma toInputs_data l : forall inputs,
  toInputs l = Some inputs ->
  map Gemini.image_data inputs = omap data l
  /\ map Gemini.image_mimeType inputs = map mime l.
Proof.
  induction l as [|img l IH]; intros inputs.
  - intros [= <-]. split; reflexivity.
  - cbn [toInputs]. unfold toInput.
    change (omap data (img :: l)) with
      (match data img with
       | Some d => d :: omap data l
       | None => omap data l
       end).
    destruct (data img) as [d|]; [|discriminate].
    destruct (toInputs l) as [rest|]; [|discriminate].
    intros [= <-]. cbn [map Gemini.image_data Gemini.image_mimeType].
    destruct (IH rest eq_refl) as [-> ->]. split; reflexivity.
Qed.

Lemma toInputs_some l :
  Forall (fun img => is_Some (data img)) l ->
  toInputs l =
    Some (omap toInput l).
Proof.
  induction 1 as [|img l [d Hd] _ IH]; [reflexivity|].
  cbn [toInputs]. rewrite IH.
  change (omap toInput (img :: l)) with
    (match toInput img with
     | Some i => i :: omap toInput l
     | None => omap toInput l
     end).
  unfold toInput. rewrite Hd. reflexivity.
Qed.

(** A result that is an object without an [analyses] array breaks every
    card. *)
Lemma card_without_analyses v index :
  v <> JSON.Null ->
  (forall items, JSON.get "analyses" v <> Some (JSON.Arr items)) ->
  card (Some v) index = Crashed.
Proof.
  intros Hnull Harr. unfold card, analysisFor.
  destruct v; try congruence;
    destruct (JSON.get "analyses" _) as [[]|]; try reflexivity;
    exfalso; eapply Harr; reflexivity.
Qed.

Lemma strictEquals_index a i index :
  Gemini.analysisIndex a = Some i ->
  strictEquals (JSON.get "index" a) index = (i =? Z.of_nat index).
Proof.
  unfold Gemini.analysisIndex, strictEquals.
  destruct (JSON.get "index" a) as [[]|]; try discriminate.
  intros [= ->]. reflexivity.
Qed.

Lemma analysisIndex_not_null a i :
  Gemini.analysisIndex a = Some i -> a <> JSON.Null.
Proof. intros H ->. discriminate. Qed.

(** Among entries that all carry an integer [index], [find] returns an
    entry of the wanted index whenever there is one. *)
Lemma findAnalysis_found index items :
  Forall (fun a => is_Some (Gemini.analysisIndex a)) items ->
  (exists a, a ∈ items /\ Gemini.analysisIndex a = Some (Z.of_nat index)) ->
  exists a, findAnalysis index items = Shown (Some a)
            /\ a ∈ items
            /\ Gemini.analysisIndex a = Some (Z.of_nat index).
Proof.
  induction 1 as [|a items [i Hi] _ IH]; intros (b & Hb & Hbi).
  - inversion Hb.
  - cbn [findAnalysis].
    rewrite (strictEquals_index a i index Hi).
    pose proof (analysisIndex_not_null a i Hi) as Hnn.
    destruct (Z.eqb_spec i (Z.of_nat index)) as [->|ne].
    + exists a. destruct a; try congruence; repeat split; auto; left.
    + destruct IH as (a' & Hf & Hin & Hidx).
      { apply elem_of_cons in Hb as [->|Hb]; [congruence|eauto]. }
      exists a'. destruct a; try congruence; repeat split; auto; right; auto.
Qed.

(** [n] distinct integers of [0, n-1] are all of them. *)
Lemma indices_cover (l : list (option Z)) (n : nat) :
  NoDup l -> length l = n ->
  Forall (fun o => exists i, o = Some i /\ 0 <= i < Z.of_nat n) l ->
  forall k, (k < n)%nat -> Some (Z.of_nat k) ∈ l.
Proof.
  intros Hnd Hlen Hall k Hk.
  assert (Hsub : l ⊆+ map (fun j => Some (Z.of_nat j)) (seq 0 n)).
  { apply NoDup_submseteq; [exact Hnd|]. intros o Ho.
    rewrite Forall_forall in Hall. destruct (Hall o Ho) as (i & -> & Hi).
    apply list_elem_of_fmap. exists (Z.to_nat i). split.
    - f_equal. lia.
    - apply elem_of_seq. lia. }
  apply submseteq_length_Permutation in Hsub.
  - rewrite Hsub. apply list_elem_of_fmap. exists k. split; [reflexivity|].
    apply elem_of_seq. lia.
  - rewrite length_map, length_seq. lia.
Qed.

Lemma cards_shown result (P : nat -> JSON.value -> Prop) count :
  forall index,
  (forall i, (index <= i < index + count)%nat ->
     exists a, analysisFor result i = Shown (Some a) /\ P i a) ->
  exists cs,
    cards result index count = Shown cs
    /\ length cs = count
    /\ forall j, (j < count)%nat ->
         exists a, cs !! j = Some (isWinner result (index + j), Some a)
                   /\ P (index + j)%nat a.
Proof.
  induction count as [|count IH]; intros index H.
  - exists []. repeat split. intros j Hj. lia.
  - destruct (H index ltac:(lia)) as (a & Ha & HP).
    destruct (IH (S index)) as (cs & Hcs & Hlen & Hall).
    { intros i Hi. apply H. lia. }
    exists ((isWinner result index, Some a) :: cs).
    cbn [cards]. unfold card. rewrite Ha, Hcs.
    split; [reflexivity|]. split; [cbn [length]; lia|].
    intros [|j] Hj.
    + exists a. rewrite Nat.add_0_r. split; [reflexivity|exact HP].
    + destruct (Hall j ltac:(lia)) as (a' & Hl & HP').
      exists a'. replace (index + S j)%nat with (S index + j)%nat by lia.
      split; [exact Hl|exact HP'].
Qed.

Lemma grid_crashes_cards (l : list Image) :
  (1 <= length l)%nat ->
  renderGrid {| images := l; isAnalyzing := false;
                result := Some (JSON.Obj []); error := None |} = Crashed.
Proof.
  intros H. unfold renderGrid. cbn [images result].
  destruct l as [|img l]; [cbn in H; lia|]. reflexivity.
Qed.

End CompareFacts.

(** X16.  When every listed image carries a payload (as every image read
    from a data URL with a comma does), [handleCompare] sends nothing to
    the provider while fewer than two images are listed (it only stores
    the request for more images), and exactly one request, with one input
    per image, otherwise; it never changes the image list. *)
Theorem compare_calls_at_most_once
  (provider : Gemini.Provider) (st : QualityComparator.State) :
  Forall (fun img => is_Some (QualityComparator.data img))
         (QualityComparator.images st) ->
  exists run,
    QualityComparator.handleCompare provider st = Some run
    /\ (QualityComparator.calls run = [] <->
          (length (QualityComparator.images st) < 2)%nat)
    /\ ((2 <= length (QualityComparator.images st))%nat ->
          exists inputs,
            QualityComparator.calls run
            = [Gemini.Call (Gemini.comparisonRequest inputs)]
            /\ length inputs = length (QualityComparator.images st))
    /\ (length (QualityComparator.calls run) <= 1)%nat
    /\ QualityComparator.images (QualityComparator.final run)
       = QualityComparator.images st
    /\ ((length (QualityComparator.images st) < 2)%nat ->
          QualityComparator.final run
          = QualityComparator.setError
              (Some QualityComparator.tooFewImages) st).
Proof.
  intros Hdata. unfold QualityComparator.handleCompare.
  destruct (Nat.ltb_spec (length (QualityComparator.images st)) 2) as [Hlt|Hge].
  - eexists. split; [reflexivity|]. cbn.
    split; [split; auto|]. split; [lia|]. split; [lia|]. split; auto.
  - pose proof (toInputs_some _ Hdata) as Hin.
    destruct (toInputs_data _ _ Hin) as [_ Hm].
    apply (f_equal length) in Hm. rewrite !length_map in Hm.
    rewrite Hin. eexists. split; [reflexivity|].
    cbn [QualityComparator.calls QualityComparator.final].
    assert (Hcalls : snd (Gemini.compareImagesQuality provider
                            (omap QualityComparator.toInput
                               (QualityComparator.images st)))
                     = [Gemini.Call
                          (Gemini.comparisonRequest
                             (omap QualityComparator.toInput
                                (QualityComparator.images st)))]).
    { unfold Gemini.compareImagesQuality, Gemini.compareImagesQualityWith.
      destruct (provider O _); reflexivity. }
    rewrite Hcalls.
    split; [split; [discriminate|lia]|].
    split; [intros _; eexists; split; [reflexivity|exact Hm]|].
    split; [cbn; lia|].
    split; [|lia].
    destruct (fst (Gemini.compareImagesQuality provider _)); reflexivity.
Qed.

Lemma compare_calls_at_most_once_witness :
  exists run,
    QualityComparator.handleCompare (Scenario.answering (Some Scenario.ranked))
      Scenario.threeUploaded = Some run
    /\ length (QualityComparator.calls run) = 1%nat
    /\ QualityComparator.images (QualityComparator.final run)
       = QualityComparator.images Scenario.threeUploaded.
Proof.
  assert (Hdata : Forall (fun img => is_Some (QualityComparator.data img))
                         (QualityComparator.images Scenario.threeUploaded))
    by (vm_compute; repeat constructor; eexists; reflexivity).
  destruct (compare_calls_at_most_once
              (Scenario.answering (Some Scenario.ranked))
              Scenario.threeUploaded Hdata)
    as (run & Hrun & _ & Hone & _ & Himg & _).
  exists run. split; [exact Hrun|]. split; [|exact Himg].
  destruct Hone as (inputs & -> & _); [vm_compute; lia|reflexivity].
Defined.



(** X18.  With at least one image listed, a stored result that is not an
    object with an [analyses] array makes the render of the image grid
    throw, at its first card. *)
Theorem grid_crashes_without_analyses
  (st : QualityComparator.State) (v : JSON.value) :
  QualityComparator.result st = Some v ->
  v <> JSON.Null ->
  (forall items, JSON.get "analyses" v <> Some (JSON.Arr items)) ->
  QualityComparator.images st <> [] ->
  QualityComparator.renderGrid st = QualityComparator.Crashed.
Proof.
  intros Hres Hnull Harr Himg. unfold QualityComparator.renderGrid.
  rewrite Hres. destruct (QualityComparator.images st) as [|img l];
    [congruence|].
  cbn [length QualityComparator.cards].
  rewrite card_without_analyses by assumption. reflexivity.
Qed.

Lemma grid_crashes_without_analyses_witness :
  QualityComparator.renderGrid
    (QualityComparator.setResult
       (Some (JSON.Obj [("bestImageIndex", JSON.Num 0);
                        ("winnerReason", JSON.Str "sharpest")]))
       Scenario.threeUploaded)
  = QualityComparator.Crashed.
Proof.
  apply (grid_crashes_without_analyses _
           (JSON.Obj [("bestImageIndex", JSON.Num 0);
                      ("winnerReason", JSON.Str "sharpest")]));
    [reflexivity|discriminate|intros items; discriminate|discriminate].
Defined.

(** X19.  When the provider answers a comparison of two or more images
    with a missing or empty payload, [handleCompare] reports no error and
    stores the empty object as result, and the next render of the image
    grid throws: the lenient parse does not end in a "no data" view. *)
Theorem empty_payload_breaks_the_grid
  (provider : Gemini.Provider) (st : QualityComparator.State)
  (inputs : list Gemini.ImageInput) (r : Gemini.Response) :
  (2 <= length (QualityComparator.images st))%nat ->
  QualityComparator.toInputs (QualityComparator.images st) = Some inputs ->
  provider O (Gemini.comparisonRequest inputs) = Gemini.Responds r ->
  Gemini.emptyPayload r ->
  exists run,
    QualityComparator.handleCompare provider st = Some run
    /\ QualityComparator.error (QualityComparator.final run) = None
    /\ QualityComparator.result (QualityComparator.final run)
       = Some (JSON.Obj [])
    /\ QualityComparator.renderGrid (QualityComparator.final run)
       = QualityComparator.Crashed.
Proof.
  intros Hlen Hin Hr He.
  assert (Hrun : QualityComparator.handleCompare provider st =
    Some {| QualityComparator.pending :=
              Some (QualityComparator.setResult None
                      (QualityComparator.setError None
                         (QualityComparator.setIsAnalyzing true st)));
            QualityComparator.final :=
              {| QualityComparator.images := QualityComparator.images st;
                 QualityComparator.isAnalyzing := false;
                 QualityComparator.result := Some (JSON.Obj []);
                 QualityComparator.error := None |};
            QualityComparator.calls :=
              [Gemini.Call (Gemini.comparisonRequest inputs)] |}).
  { unfold QualityComparator.handleCompare.
    destruct (Nat.ltb_spec (length (QualityComparator.images st)) 2);
      [lia|].
    rewrite Hin. cbv zeta.
    rewrite (compare_returns_parsed provider inputs r (JSON.Obj []) Hr).
    - reflexivity.
    - rewrite textOrEmptyObject_empty by exact He. reflexivity. }
  eexists. split; [exact Hrun|].
  cbn [QualityComparator.final QualityComparator.error
       QualityComparator.result].
  split; [reflexivity|]. split; [reflexivity|].
  apply (grid_crashes_cards (QualityComparator.images st)); lia.
Qed.

Lemma empty_payload_breaks_the_grid_witness :
  exists run,
    QualityComparator.handleCompare (Scenario.answering None)
      Scenario.threeUploaded = Some run
    /\ QualityComparator.error (QualityComparator.final run) = None
    /\ QualityComparator.result (QualityComparator.final run)
       = Some (JSON.Obj [])
    /\ QualityComparator.renderGrid (QualityComparator.final run)
       = QualityComparator.Crashed.
Proof.
  assert (Hlen : (2 <= length (QualityComparator.images
                                 Scenario.threeUploaded))%nat)
    by (vm_compute; lia).
  assert (He : Gemini.emptyPayload
                 {| Gemini.candidates := None;
                    Gemini.response_text := None |})
    by (left; reflexivity).
  exact (empty_payload_breaks_the_grid (Scenario.answering None)
           Scenario.threeUploaded Scenario.threePngs _ Hlen eq_refl eq_refl
           He).
Defined.

(** X20.  With a result that ranks the listed images (as many analyses as
    images, with distinct indices in range, and a best index in range),
    the lookups at the head of every card (QualityComparator.tsx:106-107)
    return without throwing: each card finds the analysis carrying its own
    position, whatever the order of the analyses, and the winner flag is
    set on the card at the best index and on no other.  (What React makes
    of the card's JSX is not covered.) *)
Theorem ranked_result_marks_every_card
  (st : QualityComparator.State) (v : JSON.value) :
  QualityComparator.result st = Some v ->
  Gemini.wellRanked (length (QualityComparator.images st)) v ->
  exists cs best items,
    QualityComparator.renderGrid st = QualityComparator.Shown cs
    /\ length cs = length (QualityComparator.images st)
    /\ JSON.get "bestImageIndex" v = Some (JSON.Num best)
    /\ 0 <= best < Z.of_nat (length (QualityComparator.images st))
    /\ JSON.get "analyses" v = Some (JSON.Arr items)
    /\ forall i, (i < length (QualityComparator.images st))%nat ->
         exists a,
           cs !! i = Some (bool_decide (Z.of_nat i = best), Some a)
           /\ a ∈ items
           /\ Gemini.analysisIndex a = Some (Z.of_nat i).
Proof.
  intros Hres Hrank. unfold Gemini.wellRanked in Hrank.
  destruct (JSON.get "analyses" v) as [[| | | |items|]|] eqn:Han;
    try contradiction.
  destruct (JSON.get "bestImageIndex" v) as [[| |best| | |]|] eqn:Hb;
    try contradiction.
  destruct Hrank as (Hlen & Hall & Hnd & Hbest).
  assert (Hobj : exists fields, v = JSON.Obj fields)
    by (destruct v; try discriminate; eauto).
  destruct Hobj as [fields ->].
  destruct (cards_shown (Some (JSON.Obj fields))
              (fun i a => a ∈ items
                          /\ Gemini.analysisIndex a = Some (Z.of_nat i))
              (length (QualityComparator.images st)) O)
    as (cs & Hcs & Hcl & Hcards).
  { intros i Hi. unfold QualityComparator.analysisFor. rewrite Han.
    destruct (findAnalysis_found i items) as (a & Hf & Hin & Hidx).
    - eapply Forall_impl; [exact Hall|]. intros a (j & Hj & _). eauto.
    - assert (Hcov : Some (Z.of_nat i) ∈ map Gemini.analysisIndex items).
      { apply (indices_cover _ (length (QualityComparator.images st)));
          [exact Hnd|rewrite length_map; exact Hlen| |lia].
        apply Forall_fmap. eapply Forall_impl; [exact Hall|].
        intros a (j & Hj & Hr). exists j. auto. }
      apply list_elem_of_fmap in Hcov as (a & Ha & Hin). eauto.
    - exists a. auto. }
  exists cs, best, items.
  split; [unfold QualityComparator.renderGrid; rewrite Hres; exact Hcs|].
  split; [exact Hcl|]. split; [reflexivity|]. split; [exact Hbest|].
  split; [reflexivity|].
  intros i Hi. destruct (Hcards i Hi) as (a & Hl & Hin & Hidx).
  exists a. split; [|auto]. rewrite Hl. cbn [Nat.add].
  unfold QualityComparator.isWinner. rewrite Hb.
  cbn [QualityComparator.strictEquals].
  do 2 f_equal. destruct (Z.eqb_spec best (Z.of_nat i)) as [->|ne].
  - rewrite bool_decide_eq_true_2; reflexivity.
  - rewrite bool_decide_eq_false_2; [reflexivity|congruence].
Qed.

Lemma ranked_result_marks_every_card_witness :
  let v :=
    JSON.Obj
      [("bestImageIndex", JSON.Num 2); ("winnerReason", JSON.Str "sharpest");
       ("analyses", JSON.Arr
          [JSON.Obj [("index", JSON.Num 1); ("score", JSON.Num 70);
                     ("critique", JSON.Str "fine")];
           JSON.Obj [("index", JSON.Num 0); ("score", JSON.Num 55);
                     ("critique", JSON.Str "fine")];
           JSON.Obj [("index", JSON.Num 2); ("score", JSON.Num 91);
                     ("critique", JSON.Str "fine")]])] in
  let st := QualityComparator.setResult (Some v) Scenario.threeUploaded in
  JSON.parse Scenario.ranked = Some v
  /\ Gemini.wellRanked (length (QualityComparator.images st)) v
  /\ exists cs,
       QualityComparator.renderGrid st = QualityComparator.Shown cs
       /\ map fst cs = [false; false; true]
       /\ map (fun c => snd c ≫= JSON.get "score") cs
          = [Some (JSON.Num 55); Some (JSON.Num 70); Some (JSON.Num 91)].
Proof.
  intros v st.
  split; [vm_compute; reflexivity|].
  assert (Hrank : Gemini.wellRanked (length (QualityComparator.images st)) v).
  { unfold Gemini.wellRanked. simpl. split; [reflexivity|]. split.
    - repeat constructor; eexists; (split; [reflexivity|lia]).
    - split; [|lia]. apply (bool_decide_unpack _). vm_compute. exact I. }
  split; [exact Hrank|].
  destruct (ranked_result_marks_every_card st v eq_refl Hrank)
    as (cs & best & items & Hgrid & _).
  exists cs. split; [exact Hgrid|].
  vm_compute in Hgrid. injection Hgrid as <-. split; reflexivity.
Defined.

Section UploadCompare.

Import QualityComparator.

Lemma loaded_images loaded described :
  Forall2 readAs loaded described ->
  omap (fun file => makeImage file <$> readerResult file) loaded
  = map (fun tp => {| data := Some tp.2; mime := tp.1;
                      preview := dataUrl tp.1 tp.2 |}) described.
Proof.
  induction 1 as [|file tp loaded described (Ht & _ & Hr & Hc1 & Hc2) _ IH];
    [reflexivity|].
  change (omap (fun file0 => makeImage file0 <$> readerResult file0)
            (file :: loaded))
    with (match makeImage file <$> readerResult file with
          | Some y => y :: omap (fun file0 => makeImage file0 <$>
                                   readerResult file0) loaded
          | None => omap (fun file0 => makeImage file0 <$>
                            readerResult file0) loaded
          end).
  rewrite Hr, IH. cbn [fmap option_fmap option_map map]. unfold makeImage.
  rewrite dataUrl_payload, Ht by assumption. reflexivity.
Qed.

Lemma toInputs_described (described : list (string * string)) :
  toInputs (map (fun tp => {| data := Some tp.2; mime := tp.1;
                              preview := dataUrl tp.1 tp.2 |}) described)
  = Some (map (fun tp => {| Gemini.image_data := tp.2;
                            Gemini.image_mimeType := tp.1 |}) described).
Proof.
  induction described as [|tp l IH]; [reflexivity|].
  cbn [map toInputs]. rewrite IH. reflexivity.
Qed.

End UploadCompare.

(** X21.  From upload to request: after files that are all images and
    all read successfully are uploaded into the empty comparator,
    [handleCompare] sends the provider exactly the base64 payloads and
    types of the first four files, in the order their reads finished. *)
Theorem uploaded_payloads_reach_the_provider
  (provider : Gemini.Provider)
  (files loaded : list QualityComparator.File)
  (described : list (string * string)) :
  loaded ≡ₚ files ->
  (2 <= length files)%nat ->
  Forall2 QualityComparator.readAs loaded described ->
  exists run,
    QualityComparator.handleCompare provider
      (QualityComparator.processFiles files loaded
         QualityComparator.initialState) = Some run
    /\ QualityComparator.calls run
       = [Gemini.Call
            (Gemini.comparisonRequest
               (map (fun tp => {| Gemini.image_data := tp.2;
                                  Gemini.image_mimeType := tp.1 |})
                    (take 4 described)))].
Proof.
  intros Hperm Hlen Hread.
  assert (Hl : length loaded = length files) by (rewrite Hperm; reflexivity).
  assert (Hd : length described = length loaded)
    by (symmetry; eapply Forall2_length, Hread).
  assert (Hst : QualityComparator.processFiles files loaded
                  QualityComparator.initialState
                = QualityComparator.commit
                    (map (fun tp => {| QualityComparator.data := Some tp.2;
                                       QualityComparator.mime := tp.1;
                                       QualityComparator.preview :=
                                         dataUrl tp.1 tp.2 |}) described)
                    QualityComparator.initialState).
  { rewrite processFiles_whole.
    - rewrite (loaded_images loaded described Hread). reflexivity.
    - intros ->. cbn in Hlen. lia.
    - exact Hl.
    - eapply Forall2_Forall_l; [exact Hread|]. apply Forall_forall.
      intros tp _ file (Ht & Hi & _). rewrite Ht. exact Hi.
    - eapply Forall2_Forall_l; [exact Hread|]. apply Forall_forall.
      intros tp _ file (_ & _ & Hr & _). rewrite Hr. eauto. }
  rewrite Hst. unfold QualityComparator.handleCompare.
  cbn [QualityComparator.commit QualityComparator.images
       QualityComparator.initialState app].
  rewrite <- fmap_take, length_map, length_take.
  destruct (Nat.ltb_spec (4 `min` length described) 2) as [H|_]; [lia|].
  rewrite toInputs_described. eexists. split; [reflexivity|].
  cbn [QualityComparator.calls]. unfold Gemini.compareImagesQuality, Gemini.compareImagesQualityWith,
    Gemini.parseModel.
  destruct (provider O _) as [m|r]; [reflexivity|].
  destruct (JSON.parse _); reflexivity.
Qed.

Lemma uploaded_payloads_reach_the_provider_witness :
  let files := [Scenario.pngFile "AAAA"; Scenario.pngFile "BBBB";
                Scenario.pngFile "CCCC"] in
  exists run,
    QualityComparator.handleCompare (Scenario.answering None)
      (QualityComparator.processFiles files files
         QualityComparator.initialState) = Some run
    /\ QualityComparator.calls run
       = [Gemini.Call (Gemini.comparisonRequest Scenario.threePngs)].
Proof.
  intros files.
  assert (Hlen : (2 <= length files)%nat) by (cbn; lia).
  assert (Hread : Forall2 QualityComparator.readAs files
            [("image/png", "AAAA"); ("image/png", "BBBB");
             ("image/png", "CCCC")])
    by (repeat constructor).
  exact (uploaded_payloads_reach_the_provider (Scenario.answering None)
           files files _ (reflexivity _) Hlen Hread).
Defined.

(** ** The comparator's single call *)

(** X22.  Unlike the generator, the comparator makes exactly one provider
    call whatever happens and for any number of images (none included): the
    request holds the rubric followed by one part per image in input
    order, and a rejected call is passed on with its message, without a
    second attempt or a delay. *)
Theorem comparator_never_retries
  (provider : Gemini.Provider) (images : list Gemini.ImageInput) :
  let run := Gemini.compareImagesQuality provider images in
  snd run = [Gemini.Call (Gemini.comparisonRequest images)]
  /\ Gemini.ncalls (snd run) = 1%nat
  /\ Gemini.waits (snd run) = []
  /\ length (Gemini.contents (Gemini.comparisonRequest images))
     = S (length images)
  /\ omap (fun p => Gemini.inlineData p ≫= Gemini.data)
          (Gemini.contents (Gemini.comparisonRequest images))
     = map Gemini.image_data images
  /\ (forall m,
        provider O (Gemini.comparisonRequest images) = Gemini.Raises m ->
        fst run = Gemini.Rejected m).
Proof.
  intros run. subst run. unfold Gemini.compareImagesQuality, Gemini.compareImagesQualityWith,
    Gemini.parseModel.
  assert (Hparts : omap (fun p => Gemini.inlineData p ≫= Gemini.data)
                     (Gemini.contents (Gemini.comparisonRequest images))
                   = map Gemini.image_data images).
  { cbn [Gemini.comparisonRequest Gemini.contents].
    change (omap ?f (?p :: Gemini.imageParts images))
      with (omap f (Gemini.imageParts images)).
    induction images as [|img l IH]; [reflexivity|].
    change (omap ?f (Gemini.imageParts (img :: l)))
      with (Gemini.image_data img :: omap f (Gemini.imageParts l)).
    rewrite IH. reflexivity. }
  assert (Hlen : length (Gemini.contents (Gemini.comparisonRequest images))
                 = S (length images)).
  { cbn [Gemini.comparisonRequest Gemini.contents length].
    unfold Gemini.imageParts. rewrite length_map. reflexivity. }
  destruct (provider O (Gemini.comparisonRequest images)) as [m|r] eqn:E.
  - repeat split; auto. intros m' [= ->]. reflexivity.
  - destruct (JSON.parse (Gemini.textOrEmptyObject r));
      repeat split; auto; discriminate.
Qed.

(** ** The cost of a batch *)

(** X23.  A batch of four invocations with the default budget of three
    attempts makes between 4 and 12 provider calls; no invocation waits
    more than 3 s in total, and one that returns [null] has made all three
    calls and waited exactly 3 s. *)
Theorem batch_call_budget
  (providers : nat -> Gemini.Provider) (ref : App.RefImage) (st : App.State) :
  (4 <= App.batchCalls providers ref st <= 12)%nat
  /\ forall index,
       Gemini.totalWait (App.variationTrace providers ref st index) <= 3000
       /\ (App.variation providers ref st index = None ->
             Gemini.ncalls (App.variationTrace providers ref st index) = 3%nat
             /\ Gemini.totalWait (App.variationTrace providers ref st index)
                = 3000).
Proof.
  assert (Hone : forall index,
    (1 <= Gemini.ncalls (App.variationTrace providers ref st index) <= 3)%nat
    /\ Gemini.totalWait (App.variationTrace providers ref st index)
       = 1000 * (2 ^ (Z.of_nat (Gemini.ncalls
                        (App.variationTrace providers ref st index)) - 1) - 1)
    /\ (App.variation providers ref st index = None ->
        Gemini.ncalls (App.variationTrace providers ref st index) = 3%nat)).
  { intros index. unfold App.variationTrace, App.variation,
      Gemini.generateImageVariation.
    destruct (retryLoop_shape (providers index) (App.data ref) (App.mime ref)
                (App.promptText st) (App.ratio st) (App.enhanceQuality st) 3
                (Z.to_nat (3 + 1 - 1)) 1 None [] eq_refl ltac:(lia))
      as (tr' & Hsnd & Hle & Hge & Hnone & Hw & _).
    rewrite app_nil_l in Hsnd. rewrite Hsnd.
    specialize (Hge ltac:(lia)). change (Z.to_nat (3 + 1 - 1)) with 3%nat in *.
    split; [lia|]. split; [|exact Hnone].
    unfold Gemini.totalWait. rewrite Hw.
    replace (Z.of_nat (Gemini.ncalls tr') - 1)
      with (Z.of_nat (Gemini.ncalls tr' - 1)) by lia.
    apply backoff_sum. }
  split.
  - unfold App.batchCalls. cbn [seq map foldr].
    pose proof (Hone 0%nat) as (H0 & _). pose proof (Hone 1%nat) as (H1 & _).
    pose proof (Hone 2%nat) as (H2 & _). pose proof (Hone 3%nat) as (H3 & _).
    lia.
  - intros index. destruct (Hone index) as (Hc & Ht & Hn).
    assert (Hcases : Gemini.ncalls (App.variationTrace providers ref st index)
                     ∈ [1; 2; 3]%nat).
    { destruct Hc as [Hc1 Hc3].
      destruct (Gemini.ncalls _) as [|[|[|[|c]]]]; try lia;
        repeat (try (left; fail); right). }
    split.
    + rewrite Ht. repeat (apply elem_of_cons in Hcases as [->|Hcases]);
        [simpl; lia..|inversion Hcases].
    + intros Hnone. specialize (Hn Hnone). split; [exact Hn|].
      rewrite Ht, Hn. reflexivity.
Qed.

(** ** Downloads *)

Lemma append_inv_head (s a b : string) : s +:+ a = s +:+ b -> a = b.
Proof.
  induction s as [|c s IH]; [auto|].
  change (String c (s +:+ a) = String c (s +:+ b) -> a = b).
  intros [= H]. auto.
Qed.

Lemma append_inv_tail (t : string) : forall a b, a +:+ t = b +:+ t -> a = b.
Proof.
  induction a as [|c a IH]; intros [|d b] H; [reflexivity| | |].
  - apply (f_equal String.length) in H.
    rewrite !append_length in H. cbn [String.length] in H. lia.
  - apply (f_equal String.length) in H.
    rewrite !append_length in H. cbn [String.length] in H. lia.
  - change (String c (a +:+ t) = String d (b +:+ t)) in H.
    injection H as -> H. f_equal. apply IH, H.
Qed.

Lemma download_name_inj (g g' : App.GeneratedImage) :
  ResultCard.download (ResultCard.handleDownload g)
  = ResultCard.download (ResultCard.handleDownload g') ->
  App.id g = App.id g'.
Proof.
  unfold ResultCard.handleDownload. cbn [ResultCard.download]. intros H.
  apply append_inv_head in H. apply append_inv_tail in H. exact H.
Qed.

Lemma NoDup_map_of_keys {A K B} (key : A -> K) (f : A -> B) (l : list A) :
  (forall x y, f x = f y -> key x = key y) ->
  NoDup (map key l) -> NoDup (map f l).
Proof.
  intros Hinj. induction l as [|x l IH]; [constructor|].
  cbn [map]. rewrite !NoDup_cons. intros [Hx Hl]. split; [|auto].
  intros Hin. apply Hx. apply list_elem_of_fmap in Hin as (y & Hy & Hin).
  apply list_elem_of_fmap. exists y. split; [apply Hinj, Hy|exact Hin].
Qed.

(** X24.  The images of a finished batch download under pairwise different
    file names, and what is downloaded under the [.png] name is a PNG data
    URL with a non-empty payload. *)
Theorem downloads_are_distinct_pngs
  (providers : nat -> Gemini.Provider) (sched : list App.Completion)
  (st : App.State) (ref : App.RefImage) :
  App.refImage st = Some ref ->
  truthy (App.promptText st) = true ->
  App.completeSchedule sched ->
  let anchors :=
    map ResultCard.handleDownload
      (App.results (App.current (App.handleGenerate providers sched st))) in
  NoDup (map ResultCard.download anchors)
  /\ Forall (fun a =>
               (exists d, ResultCard.href a = "data:image/png;base64," +:+ d
                          /\ d <> "")
               /\ exists name, ResultCard.download a
                               = "visionary-ai-" +:+ name +:+ ".png")
            anchors.
Proof.
  intros Href Hprompt Hsched anchors. subst anchors. split.
  - rewrite map_map.
    apply (NoDup_map_of_keys App.id); [apply download_name_inj|].
    destruct (batch_profile providers sched st ref Href Hprompt Hsched)
      as (_ & _ & Hres & _).
    rewrite Hres.
    apply (NoDup_fmap_1 lastChar). rewrite <- list_fmap_compose.
    apply (slots_ids_distinct providers ref st sched (seq 0 4)).
    + apply NoDup_seq.
    + apply Forall_forall. intros i Hi. apply elem_of_seq in Hi. lia.
  - apply Forall_fmap, Forall_forall. intros g Hg. cbn. split; [|eauto].
    destruct (results_from_completions providers sched st ref g Href Hprompt
                Hsched Hg) as (c & _ & _ & Hp).
    destruct (produced_fields providers ref st c g Hp) as (_ & Hvar & _).
    unfold App.variation, Gemini.generateImageVariation in Hvar.
    destruct (retryLoop_data_url _ _ _ _ _ _ _ (Z.to_nat (3 + 1 - 1))
                1 None [] (App.url g) eq_refl Hvar) as (d & Hd & Ht).
    exists d. split; [exact Hd|]. intros ->. discriminate.
Qed.

Lemma downloads_are_distinct_pngs_witness :
  map ResultCard.download
    (map ResultCard.handleDownload
       (App.results
          (App.current
             (App.handleGenerate Scenario.twoOfFour Scenario.someSchedule
                Scenario.readyState))))
  = ["visionary-ai-18000.png"; "visionary-ai-17002.png"]
  /\ NoDup (map ResultCard.download
              (map ResultCard.handleDownload
                 (App.results
                    (App.current
                       (App.handleGenerate Scenario.twoOfFour
                          Scenario.someSchedule Scenario.readyState))))).
Proof.
  split; [reflexivity|].
  exact (proj1 (downloads_are_distinct_pngs Scenario.twoOfFour
                  Scenario.someSchedule Scenario.readyState Scenario.refImage
                  eq_refl eq_refl someSchedule_complete)).
Defined.
